(** * filestorage: expiring cache, token manager and file-storage manager

    A shallow embedding of the Go package [storage]
    (memory_cache.go, token_manager.go, file_storage.go) together with the
    properties stated about it.

    Conventions of the embedding.
    - Go [string]s are byte sequences: they are [string]s here (lists of
      8-bit characters), and slicing counts bytes as Go does.
    - Go [int], [int64] and [time.Duration] are [Z]; where the source can
      leave the 64-bit range the wrap-around is written with [wrap64].
    - An instant is the [int64] that [time.Now().UnixNano()] returns.
    - A Go result pair (pointer to FileResponse, error) is a pair of options,
      [None] standing for [nil].
    - Everything outside the package (clock, network, JSON decoder, cloud
      SDKs, local file system) is a parameter of the code that uses it. *)

From Stdlib Require Import ZArith Lia List Bool Ascii String.
From stdpp Require Import gmap strings list fin_maps.

Local Open Scope string_scope.
Local Open Scope Z_scope.

(** ** 64-bit integers and durations *)

Definition int64_min : Z := - 2 ^ 63.
Definition int64_max : Z := 2 ^ 63 - 1.

(** Two's-complement wrap-around of a mathematical integer into [int64]. *)
Definition wrap64 (z : Z) : Z := (z + 2 ^ 63) mod 2 ^ 64 - 2 ^ 63.

Definition in_int64 (z : Z) : Prop := int64_min <= z <= int64_max.

(** [time.Second] and [time.Minute], in nanoseconds. *)
Definition Second : Z := 1000000000.
Definition Minute : Z := 60 * Second.

(** [time.Duration(n) * time.Second] on [int64]. *)
Definition seconds (n : Z) : Z := wrap64 (n * Second).

(** ** memory_cache.go *)

(** [type Item struct { Value string; Expiration int64 }] *)
Record Item := mkItem { Value : string; Expiration : Z }.

(** [type MemoryCache struct { items map[string]Item; mu sync.RWMutex }].
    The lock serialises the methods; each method below is one critical
    section, a function of the instant it reads and of the map. *)
Record MemoryCache := mkCache { items : gmap string Item }.

(** [NewMemoryCache] (the janitor goroutine is [janitor_tick] below). *)
Definition NewMemoryCache : MemoryCache := mkCache ∅.

(** [time.Now().Add(expiry).UnixNano()] for a clock reading [now]. *)
Definition expiration_of (now expiry : Z) : Z := wrap64 (now + expiry).

(** [func (c *MemoryCache) Set(key, value string, expiry time.Duration)] *)
Definition MemoryCache_Set (now : Z) (key value : string) (expiry : Z)
    (c : MemoryCache) : MemoryCache :=
  let expiration := if 0 <? expiry then expiration_of now expiry else 0 in
  mkCache (<[key := mkItem value expiration]> (items c)).

(** The test both [Get] and [Has] apply:
    [item.Expiration > 0 && time.Now().UnixNano() > item.Expiration]. *)
Definition expired (now : Z) (it : Item) : bool :=
  (0 <? Expiration it) && (Expiration it <? now).

(** [func (c *MemoryCache) Get(key string) (string, bool)].  The method has a
    pointer receiver, so the cache after the call is part of the result. *)
Definition MemoryCache_Get (now : Z) (key : string) (c : MemoryCache)
    : (string * bool) * MemoryCache :=
  match items c !! key with
  | None => ((EmptyString, false), c)
  | Some item =>
      if expired now item then ((EmptyString, false), c)
      else ((Value item, true), c)
  end.

(** [func (c *MemoryCache) Delete(key string)] *)
Definition MemoryCache_Delete (key : string) (c : MemoryCache) : MemoryCache :=
  mkCache (delete key (items c)).

(** [func (c *MemoryCache) Has(key string) bool] *)
Definition MemoryCache_Has (now : Z) (key : string) (c : MemoryCache)
    : bool * MemoryCache :=
  match items c !! key with
  | None => (false, c)
  | Some item =>
      if expired now item then (false, c) else (true, c)
  end.

(** [func (c *MemoryCache) deleteExpired()]: the range loop deletes exactly
    the entries for which the test holds at the instant read on entry. *)
Definition MemoryCache_deleteExpired (now : Z) (c : MemoryCache) : MemoryCache :=
  mkCache (filter (λ kv : string * Item, expired now kv.2 = false) (items c)).

(** One wake-up of [janitor]: [<-ticker.C; c.deleteExpired()]. *)
Definition janitor_tick (now : Z) (c : MemoryCache) : MemoryCache :=
  MemoryCache_deleteExpired now c.

(** A history of calls on one cache, each with the instant it reads. *)
Inductive CacheOp :=
| OpSet (key value : string) (expiry : Z)
| OpGet (key : string)
| OpHas (key : string)
| OpDelete (key : string)
| OpSweep.

Definition apply_op (now : Z) (op : CacheOp) (c : MemoryCache) : MemoryCache :=
  match op with
  | OpSet k v e => MemoryCache_Set now k v e c
  | OpGet k => snd (MemoryCache_Get now k c)
  | OpHas k => snd (MemoryCache_Has now k c)
  | OpDelete k => MemoryCache_Delete k c
  | OpSweep => janitor_tick now c
  end.

Fixpoint run_ops (ops : list (Z * CacheOp)) (c : MemoryCache) : MemoryCache :=
  match ops with
  | [] => c
  | (now, op) :: rest => run_ops rest (apply_op now op c)
  end.

(** The calls that write or remove the entry of [key]. *)
Definition touches (key : string) (op : CacheOp) : bool :=
  match op with
  | OpSet k _ _ => bool_decide (k = key)
  | OpDelete k => bool_decide (k = key)
  | _ => false
  end.

(** ** Values shared by token_manager.go and file_storage.go *)

(** A Go [error], by its [Error()] text. *)
Definition error := string.

(** The outcome [(v, err)] of a call into a library outside the package. *)
Inductive Result (A : Type) : Type :=
| Ok (a : A)
| Err (e : error).
Arguments Ok {A} a.
Arguments Err {A} e.

Definition is_Err {A} (r : Result A) : bool :=
  match r with Ok _ => false | Err _ => true end.

(** An [io.Reader] that is read once to its end: the bytes it delivers and the
    error, if any, that ends the reading. *)
Record Reader := mkReader { rd_data : string; rd_err : option error }.

(** [ioutil.ReadAll] *)
Definition ReadAll (r : Reader) : Result string :=
  match rd_err r with
  | Some e => Err e
  | None => Ok (rd_data r)
  end.

(** [time.Time]: [None] is the zero value, [Some t] the instant [t]. *)
Definition Time := option Z.

(** [type Config struct] *)
Record Config := mkConfig {
  HostURI : string;
  AuthorizationServerURI : string;
  ClientID : string;
  ClientSecret : string;
  AWSKey : string;
  AWSSecret : string;
  AWSRegion : string;
  AWSBucket : string;
  GCSKeyPath : string;
  GCSProjectID : string;
  GCSBucket : string
}.

(** [type TokenResponse struct] *)
Record TokenResponse := mkTokenResponse {
  AccessToken : string;
  TokenType : string;
  ExpiresIn : Z
}.

(** [type FileInfo struct] *)
Record FileInfo := mkFileInfo {
  FileExt : string;
  FileID : string;
  FileMimeType : string;
  FileName : string;
  FileSize : Z;
  PublicLink : string;
  Tag : string;
  Timestamp : Time;
  Bucket : string
}.

(** [type FileResponse struct] ([FileID] of the response is [RespFileID]). *)
Record FileResponse := mkFileResponse {
  Status : string;
  Message : string;
  Data : string;
  RespFileID : string;
  Info : option FileInfo;
  URL : string;
  ExpiredAt : Time;
  StringData : string;
  StreamData : option Reader
}.

Definition StatusSuccess : string := "OK".
Definition StatusError : string := "ERR".

(** The zero [FileResponse], on which the composite literals are built. *)
Definition FileResponse_zero : FileResponse :=
  mkFileResponse EmptyString EmptyString EmptyString EmptyString None
                 EmptyString None EmptyString None.

(** [&FileResponse{Status: s, Message: m}] *)
Definition response (s m : string) : FileResponse :=
  mkFileResponse s m EmptyString EmptyString None EmptyString None
                 EmptyString None.

(** What every exported method returns: a pointer to a [FileResponse] and an
    [error], either of which may be [nil]. *)
Definition Returned := (option FileResponse * option error)%type.

(** [return &FileResponse{Status: StatusError, Message: m}, nil] *)
Definition return_ERR (m : string) : Returned :=
  (Some (response StatusError m), None).

(** [*http.Request] and [*http.Response], as far as the package uses them. *)
Record Request := mkRequest {
  Method : string;
  ReqURL : string;
  ReqBody : string;
  Header : list (string * string)
}.

Record Response := mkResponse { StatusCode : Z; Body : Reader }.

(** [req.Header.Set] / [req.Header.Add] on a fresh key. *)
Definition Header_Set (k v : string) (r : Request) : Request :=
  mkRequest (Method r) (ReqURL r) (ReqBody r) (Header r ++ [(k, v)]).

(** [*multipart.FileHeader]: the client's file name, its Content-Type header
    and what [file.Open()] gives. *)
Record FileHeader := mkFileHeader {
  Filename : string;
  ContentType : string;
  Open : Result Reader
}.

(** [*s3.GetObjectOutput]; the pointer fields are options. *)
Record GetObjectOutput := mkGetObjectOutput {
  s3_Body : Reader;
  s3_ContentType : option string;
  s3_ContentLength : option Z;
  s3_ETag : option string
}.

(** [*storage.ObjectAttrs] *)
Record ObjectAttrs := mkObjectAttrs {
  attr_ContentType : string;
  attr_Size : Z;
  attr_Etag : string;
  attr_Created : Time
}.

(** ** The world outside the package

    [W] is the state of everything the package reaches through libraries:
    the clock, the network with the authorization server and the REST host
    behind it, and the two object stores.  Each field is one library call;
    a call that may fail returns a [Result]. *)
Class Platform (W : Type) := {
  (* time, uuid *)
  time_Now : W -> Z;
  uuid_New : W -> string * W;
  (* net/http, net/url, encoding *)
  url_Parse : string -> option error;
  url_Encode : list (string * string) -> string;
  client_Do : Request -> W -> Result Response * W;
  json_Marshal : list (string * string) -> Result string;
  json_Unmarshal_TokenResponse : string -> Result TokenResponse;
  json_Unmarshal_FileResponse : string -> Result FileResponse;
  json_Unmarshal_keyData : string -> Result (string * string);
  base64_Encode : string -> string;
  ioutil_ReadFile : string -> W -> Result string * W;
  (* aws-sdk-go *)
  session_NewSession : string -> string -> string -> W -> Result unit * W;
  s3_PutObject : string -> string -> string -> string -> W -> Result unit * W;
  s3_DeleteObject : string -> string -> W -> Result unit * W;
  s3_GetObject : string -> string -> W -> Result GetObjectOutput * W;
  s3_Presign : string -> string -> Z -> W -> Result string * W;
  (* cloud.google.com/go/storage *)
  storage_NewClient : string -> W -> Result unit * W;
  gcs_Close : W -> W;
  gcs_BucketAttrs : string -> W -> Result unit * W;
  gcs_ObjectAttrs : string -> string -> W -> Result ObjectAttrs * W;
  gcs_Write : string -> string -> string -> string -> W -> Result unit * W;
  gcs_WriterClose : string -> string -> W -> Result unit * W;
  gcs_Delete : string -> string -> W -> Result unit * W;
  gcs_NewReader : string -> string -> W -> Result Reader * W;
  storage_SignedURL : string -> string -> Z -> string -> string -> Result string
}.

(** [http.NewRequest(method, url, body)]: fails when the URL does not parse
    (the three methods used are always valid). *)
Definition http_NewRequest `{Platform W} (method url body : string)
    : Result Request :=
  match url_Parse url with
  | Some e => Err e
  | None => Ok (mkRequest method url body [])
  end.

(** ** token_manager.go *)

(** [type Cache interface] *)
Class Cache (W : Type) := {
  Cache_Get : string -> W -> (string * bool) * W;
  Cache_Set : string -> string -> Z -> W -> W;
  Cache_Delete : string -> W -> W;
  Cache_Has : string -> W -> bool * W
}.

(** [type TokenManager interface] (declared in file_storage.go) *)
Class TokenManager (W : Type) := {
  GenerateToken : W -> (string * option error) * W;
  GetToken : W -> (string * option error) * W;
  HasToken : W -> bool * W
}.

(** [type CacheTokenManager struct]; its [cache] is the [Cache] of the
    world it runs in. *)
Record CacheTokenManager := mkCacheTokenManager {
  tm_config : Config;
  tokenKey : string;
  tokenExpiry : Z
}.

(** [NewCacheTokenManager] *)
Definition NewCacheTokenManager (config : Config) : CacheTokenManager :=
  mkCacheTokenManager config "access_token" (3550 * Second).

(** The request [GenerateToken] builds, when the URL parses. *)
Definition token_request `{Platform W} (t : CacheTokenManager) : Result Request :=
  let data := url_Encode [("grant_type", "client_credentials");
                          ("client_id", ClientID (tm_config t));
                          ("client_secret", ClientSecret (tm_config t))] in
  match http_NewRequest "POST"
          (AuthorizationServerURI (tm_config t) +:+ "/token") data with
  | Err e => Err e
  | Ok req =>
      Ok (Header_Set "Content-Type" "application/x-www-form-urlencoded" req)
  end.

(** [func (t *CacheTokenManager) GenerateToken() (string, error)] *)
Definition CacheTokenManager_GenerateToken `{Platform W} `{Cache W}
    (t : CacheTokenManager) (w : W) : (string * option error) * W :=
  match token_request t with
  | Err e => ((EmptyString, Some e), w)
  | Ok req =>
      match client_Do req w with
      | (Err e, w1) => ((EmptyString, Some e), w1)
      | (Ok resp, w1) =>
          match ReadAll (Body resp) with
          | Err e => ((EmptyString, Some e), w1)
          | Ok body =>
              match json_Unmarshal_TokenResponse body with
              | Err e => ((EmptyString, Some e), w1)
              | Ok tokenResp =>
                  let w2 := Cache_Set (tokenKey t) (AccessToken tokenResp)
                              (seconds (ExpiresIn tokenResp)) w1 in
                  ((AccessToken tokenResp, None), w2)
              end
          end
      end
  end.

(** [func (t *CacheTokenManager) GetToken() (string, error)] *)
Definition CacheTokenManager_GetToken `{Platform W} `{Cache W}
    (t : CacheTokenManager) (w : W) : (string * option error) * W :=
  let '((token, exists_), w1) := Cache_Get (tokenKey t) w in
  if negb exists_ then CacheTokenManager_GenerateToken t w1
  else ((token, None), w1).

(** [func (t *CacheTokenManager) HasToken() bool] *)
Definition CacheTokenManager_HasToken `{Cache W}
    (t : CacheTokenManager) (w : W) : bool * W :=
  Cache_Has (tokenKey t) w.

(** [CacheTokenManager] implements [TokenManager]. *)
Definition CacheTokenManager_TokenManager `{Platform W} `{Cache W}
    (t : CacheTokenManager) : TokenManager W :=
  {| GenerateToken := CacheTokenManager_GenerateToken t;
     GetToken := CacheTokenManager_GetToken t;
     HasToken := CacheTokenManager_HasToken t |}.

(** ** file_storage.go: the manager and what it runs in *)

(** The local disk, as far as [os.Create], [io.Copy] and [os.Remove] reach
    it.  [create_err] and [write_err] are the failures the disk will report:
    [write_err path data = Some (n, e)] means that writing [data] to [path]
    stops with [e] after [n] bytes.  [os.Remove] unlinks the path (the
    source discards its result). *)
Record FileSystem := mkFileSystem {
  files : gmap string string;
  create_err : string -> option error;
  write_err : string -> string -> option (nat * error)
}.

Definition with_files (fs : FileSystem) (m : gmap string string) : FileSystem :=
  mkFileSystem m (create_err fs) (write_err fs).

(** [os.Create(path)]: creates or truncates. *)
Definition os_Create (path : string) (fs : FileSystem) : Result string * FileSystem :=
  match create_err fs path with
  | Some e => (Err e, fs)
  | None => (Ok path, with_files fs (<[path := EmptyString]> (files fs)))
  end.

(** [io.Copy(file, reader)] into a file just created at [path]. *)
Definition io_Copy (path : string) (r : Reader) (fs : FileSystem)
    : Result Z * FileSystem :=
  match write_err fs path (rd_data r) with
  | Some (n, e) =>
      (Err e, with_files fs (<[path := String.substring 0 n (rd_data r)]> (files fs)))
  | None =>
      let fs' := with_files fs (<[path := rd_data r]> (files fs)) in
      match rd_err r with
      | Some e => (Err e, fs')
      | None => (Ok (Z.of_nat (String.length (rd_data r))), fs')
      end
  end.

(** [os.Remove(path)] *)
Definition os_Remove (path : string) (fs : FileSystem) : FileSystem :=
  with_files fs (delete path (files fs)).

(** What the manager does that the properties speak about, in the order in
    which it happens: its calls on the token manager with the error
    [GetToken] returned, the HTTP requests it sends with what [client.Do]
    returned, and every fallible library call of the object-store methods
    with the error it returned. *)
Inductive Event :=
| EvGetToken (err : option error)
| EvGenerateToken
| EvDo (req : Request) (r : Result Response)
| EvCall (name : string) (err : option error).

Record State (W : Type) := mkState {
  ext : W;
  disk : FileSystem;
  trace : list Event
}.
Arguments mkState {W} _ _ _.
Arguments ext {W} _.
Arguments disk {W} _.
Arguments trace {W} _.

(** Computations of the manager. *)
Definition M (W A : Type) : Type := State W -> A * State W.

Definition ret {W A} (a : A) : M W A := fun s => (a, s).

Definition bind {W A B} (c : M W A) (k : A -> M W B) : M W B :=
  fun s => let '(a, s') := c s in k a s'.

Declare Scope go_scope.
Delimit Scope go_scope with go.

Notation "x <- c ;; k" := (bind c (fun x => k))
  (at level 100, c at next level, right associativity) : go_scope.
Notation "c ;;; k" := (bind c (fun _ => k))
  (at level 100, k at level 200, right associativity) : go_scope.
(** [x, err := c; if err != nil { return h }; k] *)
Notation "'try' x <- c 'catch' e => h ;; k" :=
  (bind c (fun r => match r with Ok x => k | Err e => ret h end))
  (at level 100, x name, e name, c at next level, h at next level,
   right associativity) : go_scope.

Definition err_of {A} (r : Result A) : option error :=
  match r with Ok _ => None | Err e => Some e end.

(** A fallible library call on the outside world, recorded under [name]. *)
Definition call {W A} (name : string) (f : W -> Result A * W) : M W (Result A) :=
  fun s =>
    let '(r, w') := f (ext s) in
    (r, mkState w' (disk s) (trace s ++ [EvCall name (err_of r)])).

(** A fallible library call without effect on the world. *)
Definition call_pure {W A} (name : string) (r : Result A) : M W (Result A) :=
  fun s => (r, mkState (ext s) (disk s) (trace s ++ [EvCall name (err_of r)])).

(** A fallible call on the local disk. *)
Definition call_disk {W A} (name : string)
    (f : FileSystem -> Result A * FileSystem) : M W (Result A) :=
  fun s =>
    let '(r, fs') := f (disk s) in
    (r, mkState (ext s) fs' (trace s ++ [EvCall name (err_of r)])).

Definition on_disk {W} (f : FileSystem -> FileSystem) : M W unit :=
  fun s => (tt, mkState (ext s) (f (disk s)) (trace s)).

Definition on_world {W} (f : W -> W) : M W unit :=
  fun s => (tt, mkState (f (ext s)) (disk s) (trace s)).

Definition read_world {W A} (f : W -> A) : M W A :=
  fun s => (f (ext s), s).

Definition step_world {W A} (f : W -> A * W) : M W A :=
  fun s => let '(a, w') := f (ext s) in (a, mkState w' (disk s) (trace s)).

(** [type FileStorageManager struct]; its [tokenManager] is the
    [TokenManager] of the world it runs in. *)
Record FileStorageManager := mkFileStorageManager {
  maxRetry : Z;
  config : Config
}.

(** [NewFileStorageManager] and [SetMaxRetry] *)
Definition NewFileStorageManager (config : Config) : FileStorageManager :=
  mkFileStorageManager 3 config.

Definition SetMaxRetry (maxRetry : Z) (f : FileStorageManager) : FileStorageManager :=
  mkFileStorageManager maxRetry (config f).

(** [f.tokenManager.GetToken()], [f.tokenManager.GenerateToken()] and
    [client.Do(req)] as the manager calls them. *)
Definition tm_GetToken `{TokenManager W} : M W (string * option error) :=
  fun s =>
    let '((token, err), w') := GetToken (ext s) in
    ((token, err), mkState w' (disk s) (trace s ++ [EvGetToken err])).

Definition tm_GenerateToken `{TokenManager W} : M W (string * option error) :=
  fun s =>
    let '(r, w') := GenerateToken (ext s) in
    (r, mkState w' (disk s) (trace s ++ [EvGenerateToken])).

Definition http_Do `{Platform W} (req : Request) : M W (Result Response) :=
  fun s =>
    let '(r, w') := client_Do req (ext s) in
    (r, mkState w' (disk s) (trace s ++ [EvDo req r])).

(** How the [for] loop of a REST method is left. *)
Inductive LoopExit :=
| Return (r : Returned)
| Break (resp : Response)
| OutOfFuel.

Definition RetryExhausted : error := "exceeded maximum retry attempts".

Section Rest.
Context {W : Type} `{Platform W} `{TokenManager W}.
Variable f : FileStorageManager.
Local Open Scope go_scope.

(** The [for { ... }] loop of [UploadBase64File], [Delete] and
    [GetFileById]; the three copies differ only in the arguments of
    [http.NewRequest].  [attempts] is the variable of the source, [fuel]
    bounds the iterations still to run. *)
Fixpoint retry_loop (method url body : string) (fuel : nat) (attempts : Z)
    : M W LoopExit :=
  if maxRetry f <=? attempts then
    ret (Return (None, Some RetryExhausted))
  else
    match fuel with
    | O => ret OutOfFuel
    | S fuel' =>
        got <- tm_GetToken ;;
        let '(token, err) := got in
        match err with
        | Some e => ret (Return (None, Some e))
        | None =>
            match http_NewRequest method url body with
            | Err e => ret (Return (None, Some e))
            | Ok req =>
                let req := Header_Set "Content-Type" "application/json" req in
                let req := Header_Set "x-code" token req in
                let req := Header_Set "x-client-id" (ClientID (config f)) req in
                r <- http_Do req ;;
                match r with
                | Err _ =>
                    tm_GenerateToken ;;;
                    retry_loop method url body fuel' (attempts + 1)
                | Ok resp =>
                    if 500 <=? StatusCode resp then
                      tm_GenerateToken ;;;
                      retry_loop method url body fuel' (attempts + 1)
                    else ret (Break resp)
                end
            end
        end
    end.

(** After the loop: [ioutil.ReadAll(resp.Body)], then [json.Unmarshal]. *)
Definition parse_FileResponse (resp : Response) : Returned :=
  match ReadAll (Body resp) with
  | Err e => (None, Some e)
  | Ok body =>
      match json_Unmarshal_FileResponse body with
      | Err e => (None, Some e)
      | Ok fileResponse => (Some fileResponse, None)
      end
  end.

(** The loop started with [attempts := 0], and what follows it.  [None]
    stands for a loop that has not finished within its fuel. *)
Definition rest_call (method url body : string) : M W (option Returned) :=
  x <- retry_loop method url body (Z.to_nat (maxRetry f)) 0 ;;
  match x with
  | Return r => ret (Some r)
  | Break resp => ret (Some (parse_FileResponse resp))
  | OutOfFuel => ret None
  end.

Definition is_empty (s : string) : bool := bool_decide (s = EmptyString).

(** [func (f *FileStorageManager) UploadBase64File(...)] *)
Definition UploadBase64File (filename extension mimetype base64file : string)
    : M W (option Returned) :=
  if is_empty filename || is_empty extension || is_empty mimetype
     || is_empty base64file then
    ret (Some (None, Some "invalid arguments"))
  else
    match json_Marshal [("file_name", filename); ("file_ext", extension);
                        ("mime_type", mimetype);
                        ("binary_data_b64", base64file)] with
    | Err e => ret (Some (None, Some e))
    | Ok jsonData => rest_call "POST" (HostURI (config f) +:+ "/d/files") jsonData
    end.

(** [func (f *FileStorageManager) Delete(fileID string)] *)
Definition Delete (fileID : string) : M W (option Returned) :=
  rest_call "DELETE" (HostURI (config f) +:+ "/d/files/" +:+ fileID) EmptyString.

(** [func (f *FileStorageManager) GetFileById(fileID string)] *)
Definition GetFileById (fileID : string) : M W (option Returned) :=
  rest_call "GET" (HostURI (config f) +:+ "/d/files/" +:+ fileID) EmptyString.
End Rest.

(** ** path/filepath, on a system whose separator is the slash *)

Definition is_sep (c : ascii) : bool := Ascii.eqb c "/"%char.
Definition is_dot (c : ascii) : bool := Ascii.eqb c "."%char.

(** [filepath.Ext]: the loop runs from the last byte down to the first and
    stops at a separator; [suffix] is what lies behind the byte looked at. *)
Fixpoint ext_scan (rpath suffix : list ascii) : string :=
  match rpath with
  | [] => EmptyString
  | c :: more =>
      if is_sep c then EmptyString
      else if is_dot c then string_of_list_ascii (c :: suffix)
      else ext_scan more (c :: suffix)
  end.

Definition filepath_Ext (path : string) : string :=
  ext_scan (rev (list_ascii_of_string path)) [].

Fixpoint drop_seps (rpath : list ascii) : list ascii :=
  match rpath with
  | [] => []
  | c :: more => if is_sep c then drop_seps more else rpath
  end.

Fixpoint last_element (rpath : list ascii) : list ascii :=
  match rpath with
  | [] => []
  | c :: more => if is_sep c then [] else c :: last_element more
  end.

(** [filepath.Base] *)
Definition filepath_Base (path : string) : string :=
  match path with
  | EmptyString => "."
  | _ =>
      match last_element (drop_seps (rev (list_ascii_of_string path))) with
      | [] => "/"
      | l => string_of_list_ascii (rev l)
      end
  end.

Definition len (s : string) : Z := Z.of_nat (String.length s).

(** The slice expression [s[:n]]; it is used where [0 <= n <= len(s)]. *)
Definition slice_to (s : string) (n : Z) : string :=
  String.substring 0 (Z.to_nat n) s.

(** [extension := filepath.Ext(name); if extension != "" { extension =
    extension[1:] }] *)
Definition extension_of (name : string) : string :=
  match filepath_Ext name with
  | EmptyString => EmptyString
  | String _ rest => rest
  end.

(** [time.Time.Sub], which saturates at the ends of [time.Duration]. *)
Definition Time_Sub (t u : Z) : Z := Z.max int64_min (Z.min int64_max (t - u)).

Definition opt_string (o : option string) : string :=
  match o with Some s => s | None => EmptyString end.
Definition opt_int64 (o : option Z) : Z :=
  match o with Some z => z | None => 0 end.

Section ObjectStores.
Context {W : Type} `{Platform W}.
Variable f : FileStorageManager.
Local Open Scope go_scope.

Definition default_bucket (bucketname dflt : string) : string :=
  if is_empty bucketname then dflt else bucketname.

(** [fileID] of an upload: the unique name under the subdirectory. *)
Definition make_fileID (subdirectory uniqueFilename : string) : string :=
  if negb (is_empty subdirectory) then subdirectory +:+ "/" +:+ uniqueFilename
  else uniqueFilename.

(** [func (f *FileStorageManager) GetAwsClient()] *)
Definition GetAwsClient : M W (Result unit) :=
  call "session.NewSession"
    (session_NewSession (AWSRegion (config f)) (AWSKey (config f))
                        (AWSSecret (config f))).

Definition aws_publicURL (bucketname fileID : string) : string :=
  "https://" +:+ bucketname +:+ ".s3." +:+ AWSRegion (config f)
    +:+ ".amazonaws.com/" +:+ fileID.

(** [func (f *FileStorageManager) AwsUpload(file, subdirectory, bucketname)] *)
Definition AwsUpload (file : FileHeader) (subdirectory bucketname : string)
    : M W Returned :=
  match Open file with
  | Err e => ret (None, Some e)
  | Ok src =>
  match ReadAll src with
  | Err e => ret (None, Some e)
  | Ok data =>
    let origFilename := filepath_Base (Filename file) in
    let extension := extension_of origFilename in
    u <- step_world uuid_New ;;
    let uniqueFilename := u +:+ "." +:+ extension in
    let fileID := make_fileID subdirectory uniqueFilename in
    let bucketname := default_bucket bucketname (AWSBucket (config f)) in
    try s3Client <- GetAwsClient catch e => return_ERR e ;;
    try out <- call "s3.PutObject"
                 (s3_PutObject bucketname fileID data (ContentType file))
      catch e => return_ERR e ;;
    let publicURL := aws_publicURL bucketname fileID in
    now <- read_world time_Now ;;
    let fileInfo :=
      mkFileInfo extension fileID (ContentType file)
        (slice_to origFilename (len origFilename - len extension - 1))
        (len data) publicURL EmptyString (Some now) EmptyString in
    ret (Some (mkFileResponse StatusSuccess ("INSERT " +:+ fileID) EmptyString
                 fileID (Some fileInfo) EmptyString None EmptyString None),
         None)
  end end.

(** [func (f *FileStorageManager) AwsDelete(awsFileID, bucketname)] *)
Definition AwsDelete (awsFileID bucketname : string) : M W Returned :=
  let bucketname := default_bucket bucketname (AWSBucket (config f)) in
  try s3Client <- GetAwsClient catch e => return_ERR e ;;
  try out <- call "s3.DeleteObject" (s3_DeleteObject bucketname awsFileID)
    catch e => return_ERR e ;;
  ret (Some (response StatusSuccess ("DELETE " +:+ awsFileID)), None).

(** [func (f *FileStorageManager) AwsGetFileById(awsFileID, bucketname)] *)
Definition AwsGetFileById (awsFileID bucketname : string) : M W Returned :=
  let bucketname := default_bucket bucketname (AWSBucket (config f)) in
  try s3Client <- GetAwsClient catch e => return_ERR e ;;
  try result <- call "s3.GetObject" (s3_GetObject bucketname awsFileID)
    catch e => return_ERR e ;;
  try body <- call_pure "ioutil.ReadAll" (ReadAll (s3_Body result))
    catch e => return_ERR e ;;
  let extension := extension_of awsFileID in
  let publicURL := aws_publicURL bucketname awsFileID in
  now <- read_world time_Now ;;
  let fileInfo :=
    mkFileInfo extension awsFileID (opt_string (s3_ContentType result))
      EmptyString (opt_int64 (s3_ContentLength result)) publicURL
      (opt_string (s3_ETag result)) (Some now) EmptyString in
  ret (Some (mkFileResponse StatusSuccess EmptyString (base64_Encode body)
               EmptyString (Some fileInfo) EmptyString None EmptyString None),
       None).

(** [func (f *FileStorageManager) AwsDownloadFile(awsFileID, bucketname,
    saveAsPath)]; the deferred [file.Close()] leaves the disk as it is. *)
Definition AwsDownloadFile (awsFileID bucketname saveAsPath : string)
    : M W Returned :=
  let bucketname := default_bucket bucketname (AWSBucket (config f)) in
  try s3Client <- GetAwsClient catch e => return_ERR e ;;
  try file <- call_disk "os.Create" (os_Create saveAsPath)
    catch e => return_ERR e ;;
  r <- call "s3.GetObject" (s3_GetObject bucketname awsFileID) ;;
  match r with
  | Err e =>
      on_disk (os_Remove saveAsPath) ;;;
      ret (return_ERR e)
  | Ok result =>
      c <- call_disk "io.Copy" (io_Copy file (s3_Body result)) ;;
      match c with
      | Err e =>
          on_disk (os_Remove saveAsPath) ;;;
          ret (return_ERR e)
      | Ok _ =>
          ret (Some (response StatusSuccess
                       ("File success saved to " +:+ saveAsPath)), None)
      end
  end.

(** [expiry.IsZero()] selects the default of 30 minutes from now. *)
Definition default_expiry (expiry : Time) : M W Z :=
  match expiry with
  | Some t => ret t
  | None => now <- read_world time_Now ;; ret (now + 30 * Minute)
  end.

(** [func (f *FileStorageManager) AwsGetTemporaryPublicLink(awsFileID,
    expiry, bucketname)] *)
Definition AwsGetTemporaryPublicLink (awsFileID : string) (expiry : Time)
    (bucketname : string) : M W Returned :=
  let bucketname := default_bucket bucketname (AWSBucket (config f)) in
  expiry <- default_expiry expiry ;;
  try s3Client <- GetAwsClient catch e => return_ERR e ;;
  now <- read_world time_Now ;;
  try urlStr <- call "request.Presign"
                  (s3_Presign bucketname awsFileID (Time_Sub expiry now))
    catch e => return_ERR e ;;
  ret (Some (mkFileResponse StatusSuccess EmptyString EmptyString EmptyString
               None urlStr (Some expiry) EmptyString None), None).

(** [func (f *FileStorageManager) GetGcsClient(projectID)] *)
Definition GetGcsClient (projectID : string) : M W (Result unit) :=
  let projectID :=
    if is_empty projectID then GCSProjectID (config f) else projectID in
  if is_empty (GCSKeyPath (config f)) || is_empty projectID then
    call_pure "GetGcsClient" (Err "credential not found")
  else
    call "storage.NewClient" (storage_NewClient (GCSKeyPath (config f))).

(** [defer gcsClient.Close()] around the rest of a method. *)
Definition closing_client {A} (body : M W A) : M W A :=
  r <- body ;; on_world gcs_Close ;;; ret r.

(** The two lookups that open most GCS methods: [bucket.Attrs(ctx)], then
    [obj.Attrs(ctx)]. *)
Definition gcs_bucket_exists (bucketname : string) : M W (Result unit) :=
  call "bucket.Attrs" (gcs_BucketAttrs bucketname).

Definition gcs_object_attrs (bucketname gcsFileID : string)
    : M W (Result ObjectAttrs) :=
  call "obj.Attrs" (gcs_ObjectAttrs bucketname gcsFileID).

Definition gcs_publicURL (bucketname fileID : string) : string :=
  "https://storage.googleapis.com/" +:+ bucketname +:+ "/" +:+ fileID.

Definition object_not_found (gcsFileID : string) : string :=
  "Object " +:+ gcsFileID +:+ " not found".

(** [func (f *FileStorageManager) GcsUpload(file, subdirectory, bucketname,
    projectID)] *)
Definition GcsUpload (file : FileHeader) (subdirectory bucketname projectID : string)
    : M W Returned :=
  match Open file with
  | Err e => ret (None, Some e)
  | Ok src =>
  match ReadAll src with
  | Err e => ret (None, Some e)
  | Ok data =>
    let origFilename := filepath_Base (Filename file) in
    let extension := extension_of origFilename in
    u <- step_world uuid_New ;;
    let uniqueFilename := u +:+ "." +:+ extension in
    let fileID := make_fileID subdirectory uniqueFilename in
    let bucketname := default_bucket bucketname (GCSBucket (config f)) in
    try gcsClient <- GetGcsClient projectID catch e => return_ERR e ;;
    closing_client (
      try battrs <- gcs_bucket_exists bucketname
        catch e => return_ERR "Bucket not found" ;;
      try n <- call "wc.Write"
                 (gcs_Write bucketname fileID (ContentType file) data)
        catch e => return_ERR e ;;
      try closed <- call "wc.Close" (gcs_WriterClose bucketname fileID)
        catch e => return_ERR e ;;
      try attrs <- gcs_object_attrs bucketname fileID
        catch e => return_ERR e ;;
      let publicURL := gcs_publicURL bucketname fileID in
      let fileInfo :=
        mkFileInfo extension fileID (attr_ContentType attrs)
          (slice_to origFilename (len origFilename - len extension - 1))
          (attr_Size attrs) publicURL (attr_Etag attrs) (attr_Created attrs)
          bucketname in
      ret (Some (mkFileResponse StatusSuccess ("INSERT " +:+ fileID)
                   EmptyString fileID (Some fileInfo) EmptyString None
                   EmptyString None), None))
  end end.

(** [func (f *FileStorageManager) GcsDelete(gcsFileID, bucketname,
    projectID)] *)
Definition GcsDelete (gcsFileID bucketname projectID : string) : M W Returned :=
  let bucketname := default_bucket bucketname (GCSBucket (config f)) in
  try gcsClient <- GetGcsClient projectID catch e => return_ERR e ;;
  closing_client (
    try battrs <- gcs_bucket_exists bucketname
      catch e => return_ERR "Bucket not found" ;;
    try attrs <- gcs_object_attrs bucketname gcsFileID
      catch e => return_ERR (object_not_found gcsFileID) ;;
    try deleted <- call "obj.Delete" (gcs_Delete bucketname gcsFileID)
      catch e => return_ERR e ;;
    ret (Some (response StatusSuccess ("DELETE " +:+ gcsFileID)), None)).

(** [func (f *FileStorageManager) GcsGetFileById(gcsFileID, bucketname,
    projectID)] *)
Definition GcsGetFileById (gcsFileID bucketname projectID : string)
    : M W Returned :=
  let bucketname := default_bucket bucketname (GCSBucket (config f)) in
  try gcsClient <- GetGcsClient projectID catch e => return_ERR e ;;
  closing_client (
    try battrs <- gcs_bucket_exists bucketname
      catch e => return_ERR "Bucket not found" ;;
    try attrs <- gcs_object_attrs bucketname gcsFileID
      catch e => return_ERR (object_not_found gcsFileID) ;;
    try reader <- call "obj.NewReader" (gcs_NewReader bucketname gcsFileID)
      catch e => return_ERR e ;;
    try data <- call_pure "ioutil.ReadAll" (ReadAll reader)
      catch e => return_ERR e ;;
    let extension := extension_of gcsFileID in
    let publicURL := gcs_publicURL bucketname gcsFileID in
    let fileInfo :=
      mkFileInfo extension gcsFileID (attr_ContentType attrs) EmptyString
        (attr_Size attrs) publicURL (attr_Etag attrs) (attr_Created attrs)
        bucketname in
    ret (Some (mkFileResponse StatusSuccess EmptyString (base64_Encode data)
                 EmptyString (Some fileInfo) EmptyString None EmptyString
                 None), None)).

(** [func (f *FileStorageManager) GcsDownloadFile(gcsFileID, saveAsPath,
    bucketname, projectID)]; the deferred [file.Close()] and
    [reader.Close()] leave the disk as it is. *)
Definition GcsDownloadFile (gcsFileID saveAsPath bucketname projectID : string)
    : M W Returned :=
  let bucketname := default_bucket bucketname (GCSBucket (config f)) in
  try gcsClient <- GetGcsClient projectID catch e => return_ERR e ;;
  closing_client (
    try battrs <- gcs_bucket_exists bucketname
      catch e => return_ERR "Bucket not found" ;;
    try attrs <- gcs_object_attrs bucketname gcsFileID
      catch e => return_ERR (object_not_found gcsFileID) ;;
    try file <- call_disk "os.Create" (os_Create saveAsPath)
      catch e => return_ERR e ;;
    r <- call "obj.NewReader" (gcs_NewReader bucketname gcsFileID) ;;
    match r with
    | Err e =>
        on_disk (os_Remove saveAsPath) ;;;
        ret (return_ERR e)
    | Ok reader =>
        c <- call_disk "io.Copy" (io_Copy file reader) ;;
        match c with
        | Err e =>
            on_disk (os_Remove saveAsPath) ;;;
            ret (return_ERR e)
        | Ok _ =>
            ret (Some (response StatusSuccess
                         ("File success saved to " +:+ saveAsPath)), None)
        end
    end).

(** [func (f *FileStorageManager) GcsGetFileByIdAsString(gcsFileID,
    bucketname, projectID)] *)
Definition GcsGetFileByIdAsString (gcsFileID bucketname projectID : string)
    : M W Returned :=
  let bucketname := default_bucket bucketname (GCSBucket (config f)) in
  try gcsClient <- GetGcsClient projectID catch e => return_ERR e ;;
  closing_client (
    try battrs <- gcs_bucket_exists bucketname
      catch e => return_ERR "Bucket not found" ;;
    try attrs <- gcs_object_attrs bucketname gcsFileID
      catch e => return_ERR (object_not_found gcsFileID) ;;
    try reader <- call "obj.NewReader" (gcs_NewReader bucketname gcsFileID)
      catch e => return_ERR e ;;
    try data <- call_pure "ioutil.ReadAll" (ReadAll reader)
      catch e => return_ERR e ;;
    ret (Some (mkFileResponse StatusSuccess EmptyString EmptyString
                 EmptyString None EmptyString None data None), None)).

(** [func (f *FileStorageManager) GcsGetFileByIdAsStream(gcsFileID,
    bucketname, projectID)]: no deferred close; the client is closed on the
    failure paths only. *)
Definition GcsGetFileByIdAsStream (gcsFileID bucketname projectID : string)
    : M W Returned :=
  let bucketname := default_bucket bucketname (GCSBucket (config f)) in
  try gcsClient <- GetGcsClient projectID catch e => return_ERR e ;;
  b <- gcs_bucket_exists bucketname ;;
  match b with
  | Err _ => on_world gcs_Close ;;; ret (return_ERR "Bucket not found")
  | Ok _ =>
      a <- gcs_object_attrs bucketname gcsFileID ;;
      match a with
      | Err _ =>
          on_world gcs_Close ;;;
          ret (return_ERR (object_not_found gcsFileID))
      | Ok _ =>
          r <- call "obj.NewReader" (gcs_NewReader bucketname gcsFileID) ;;
          match r with
          | Err e => on_world gcs_Close ;;; ret (return_ERR e)
          | Ok reader =>
              ret (Some (mkFileResponse StatusSuccess EmptyString EmptyString
                           EmptyString None EmptyString None EmptyString
                           (Some reader)), None)
          end
      end
  end.

(** [func (f *FileStorageManager) GcsGetTemporaryPublicLink(gcsFileID,
    expiry, bucketname, projectID)] *)
Definition GcsGetTemporaryPublicLink (gcsFileID : string) (expiry : Time)
    (bucketname projectID : string) : M W Returned :=
  let bucketname := default_bucket bucketname (GCSBucket (config f)) in
  expiry <- default_expiry expiry ;;
  try gcsClient <- GetGcsClient projectID catch e => return_ERR e ;;
  closing_client (
    try battrs <- gcs_bucket_exists bucketname
      catch e => return_ERR "Bucket not found" ;;
    try attrs <- gcs_object_attrs bucketname gcsFileID
      catch e => return_ERR (object_not_found gcsFileID) ;;
    try jsonKey <- call "ioutil.ReadFile" (ioutil_ReadFile (GCSKeyPath (config f)))
      catch e => return_ERR ("Failed to read service account key: " +:+ e) ;;
    try keyData <- call_pure "json.Unmarshal" (json_Unmarshal_keyData jsonKey)
      catch e => return_ERR ("Failed to parse service account key: " +:+ e) ;;
    try url <- call_pure "storage.SignedURL"
                 (storage_SignedURL bucketname gcsFileID expiry
                    (fst keyData) (snd keyData))
      catch e => return_ERR e ;;
    ret (Some (mkFileResponse StatusSuccess EmptyString EmptyString
                 EmptyString None url (Some expiry) EmptyString None), None)).
End ObjectStores.

(** ** An in-memory outside world

    A world on which the code runs to a value: a clock, the [MemoryCache] of
    the process, the HTTP requests sent so far, and two object stores held
    as maps.  [Outside] is what the world does on its own account: what the
    network answers to the n-th request and after how long, what the JSON
    decoder makes of a body, which library call fails with which error.
    The stores answer as the services do: looking up or reading a key that
    is not there is an error, and S3's [DeleteObject] succeeds whether or not
    the key is there. *)

Record StoredObject := mkStoredObject {
  so_ContentType : string;
  so_Data : string
}.

Record World := mkWorld {
  clock : Z;
  mcache : MemoryCache;
  sent : list Request;
  s3_objects : gmap (string * string) StoredObject;
  gcs_buckets : gset string;
  gcs_objects : gmap (string * string) StoredObject;
  uuids_drawn : nat
}.

Record Outside := mkOutside {
  network : nat -> Request -> Z * Result Response;
  decode_token : string -> Result TokenResponse;
  decode_file : string -> Result FileResponse;
  bad_url : string -> option error;
  fault : string -> option error;
  uuids : nat -> string
}.

Definition set_clock (t : Z) (w : World) : World :=
  mkWorld t (mcache w) (sent w) (s3_objects w) (gcs_buckets w) (gcs_objects w)
          (uuids_drawn w).
Definition set_mcache (c : MemoryCache) (w : World) : World :=
  mkWorld (clock w) c (sent w) (s3_objects w) (gcs_buckets w) (gcs_objects w)
          (uuids_drawn w).
Definition set_sent (l : list Request) (w : World) : World :=
  mkWorld (clock w) (mcache w) l (s3_objects w) (gcs_buckets w) (gcs_objects w)
          (uuids_drawn w).
Definition set_s3 (m : gmap (string * string) StoredObject) (w : World) : World :=
  mkWorld (clock w) (mcache w) (sent w) m (gcs_buckets w) (gcs_objects w)
          (uuids_drawn w).
Definition set_gcs (m : gmap (string * string) StoredObject) (w : World) : World :=
  mkWorld (clock w) (mcache w) (sent w) (s3_objects w) (gcs_buckets w) m
          (uuids_drawn w).

(** Time passing between two calls. *)
Definition elapse (d : Z) (w : World) : World := set_clock (clock w + d) w.

(** [MemoryCache] implements [Cache]; every method reads the clock once. *)
Definition World_Cache : Cache World :=
  {| Cache_Get key w :=
       let '(r, c) := MemoryCache_Get (clock w) key (mcache w) in
       (r, set_mcache c w);
     Cache_Set key value expiry w :=
       set_mcache (MemoryCache_Set (clock w) key value expiry (mcache w)) w;
     Cache_Delete key w := set_mcache (MemoryCache_Delete key (mcache w)) w;
     Cache_Has key w :=
       let '(r, c) := MemoryCache_Has (clock w) key (mcache w) in
       (r, set_mcache c w) |}.

(** [url.Values.Encode] writes the pairs in the order of their keys. *)
Fixpoint insert_by_key (kv : string * string) (l : list (string * string))
    : list (string * string) :=
  match l with
  | [] => [kv]
  | kv' :: rest =>
      if String.leb (fst kv) (fst kv') then kv :: l
      else kv' :: insert_by_key kv rest
  end.

Definition sort_by_key (l : list (string * string)) : list (string * string) :=
  fold_right insert_by_key [] l.

(** A library call that fails when the outside says so. *)
Definition faulty {A} (o : Outside) (name : string) (w : World)
    (k : Result A * World) : Result A * World :=
  match fault o name with
  | Some e => (Err e, w)
  | None => k
  end.

Definition stored_reader (so : StoredObject) : Reader :=
  mkReader (so_Data so) None.

Definition World_Platform (o : Outside) : Platform World :=
  {| time_Now := clock;
     uuid_New w :=
       (uuids o (uuids_drawn w),
        mkWorld (clock w) (mcache w) (sent w) (s3_objects w) (gcs_buckets w)
                (gcs_objects w) (S (uuids_drawn w)));
     url_Parse := bad_url o;
     url_Encode kvs :=
       String.concat "&"
         (map (λ kv, fst kv +:+ "=" +:+ snd kv) (sort_by_key kvs));
     client_Do req w :=
       let '(latency, r) := network o (length (sent w)) req in
       (r, set_sent (sent w ++ [req]) (elapse latency w));
     json_Marshal kvs :=
       Ok (String.concat "," (map (λ kv, fst kv +:+ ":" +:+ snd kv) kvs));
     json_Unmarshal_TokenResponse := decode_token o;
     json_Unmarshal_FileResponse := decode_file o;
     json_Unmarshal_keyData body :=
       match fault o "json.Unmarshal" with
       | Some e => Err e
       | None => Ok ("service@example.iam", body)
       end;
     base64_Encode data := data;
     ioutil_ReadFile path w :=
       faulty o "ioutil.ReadFile" w (Ok "key", w);
     session_NewSession region key secret w :=
       faulty o "session.NewSession" w (Ok tt, w);
     s3_PutObject bucket key data ctype w :=
       faulty o "s3.PutObject" w
         (Ok tt, set_s3 (<[(bucket, key) := mkStoredObject ctype data]> (s3_objects w)) w);
     s3_DeleteObject bucket key w :=
       faulty o "s3.DeleteObject" w
         (Ok tt, set_s3 (delete (bucket, key) (s3_objects w)) w);
     s3_GetObject bucket key w :=
       faulty o "s3.GetObject" w
         (match s3_objects w !! (bucket, key) with
          | None => (Err "NoSuchKey: The specified key does not exist.", w)
          | Some so =>
              (Ok (mkGetObjectOutput (stored_reader so) (Some (so_ContentType so))
                     (Some (len (so_Data so))) None), w)
          end);
     s3_Presign bucket key d w :=
       faulty o "request.Presign" w (Ok ("https://signed/" +:+ bucket +:+ "/" +:+ key), w);
     storage_NewClient keypath w :=
       faulty o "storage.NewClient" w (Ok tt, w);
     gcs_Close w := w;
     gcs_BucketAttrs bucket w :=
       faulty o "bucket.Attrs" w
         (if bool_decide (bucket ∈ gcs_buckets w) then (Ok tt, w)
          else (Err "storage: bucket doesn't exist", w));
     gcs_ObjectAttrs bucket key w :=
       faulty o "obj.Attrs" w
         (match gcs_objects w !! (bucket, key) with
          | None => (Err "storage: object doesn't exist", w)
          | Some so =>
              (Ok (mkObjectAttrs (so_ContentType so) (len (so_Data so))
                     EmptyString (Some (clock w))), w)
          end);
     gcs_Write bucket key ctype data w :=
       faulty o "wc.Write" w
         (Ok tt, set_gcs (<[(bucket, key) := mkStoredObject ctype data]> (gcs_objects w)) w);
     gcs_WriterClose bucket key w :=
       faulty o "wc.Close" w (Ok tt, w);
     gcs_Delete bucket key w :=
       faulty o "obj.Delete" w
         (Ok tt, set_gcs (delete (bucket, key) (gcs_objects w)) w);
     gcs_NewReader bucket key w :=
       faulty o "obj.NewReader" w
         (match gcs_objects w !! (bucket, key) with
          | None => (Err "storage: object doesn't exist", w)
          | Some so => (Ok (stored_reader so), w)
          end);
     storage_SignedURL bucket key expires email pk :=
       match fault o "storage.SignedURL" with
       | Some e => Err e
       | None => Ok ("https://storage.googleapis.com/" +:+ bucket +:+ "/" +:+ key)
       end |}.

(** ** The vocabulary of the properties *)

(** A non-expiring entry is an entry whose [Expiration] is zero; no call
    that leaves the key alone changes it. *)
Definition holds_forever (key value : string) (c : MemoryCache) : Prop :=
  items c !! key = Some (mkItem value 0).


(** A state with an empty record of events. *)
Definition fresh {W} (w : W) (fs : FileSystem) : State W := mkState w fs [].

(** [client.Do] ended in a transport failure or in a 5xx response, that is,
    as the source tests it, a response whose status is 500 or above. *)
Definition transient (r : Result Response) : bool :=
  match r with
  | Err _ => true
  | Ok resp => 500 <=? StatusCode resp
  end.

(** The forced token regenerations among the events. *)
Fixpoint count_regen (tr : list Event) : Z :=
  match tr with
  | [] => 0
  | EvGenerateToken :: rest => 1 + count_regen rest
  | _ :: rest => count_regen rest
  end.

(** The HTTP attempts among the events, in order, with their outcomes. *)
Fixpoint attempts_of (tr : list Event) : list (Request * Result Response) :=
  match tr with
  | [] => []
  | EvDo req r :: rest => (req, r) :: attempts_of rest
  | _ :: rest => attempts_of rest
  end.

(** The three REST methods and their arguments. *)
Inductive RestOp :=
| CallUploadBase64File (filename extension mimetype base64file : string)
| CallDelete (fileID : string)
| CallGetFileById (fileID : string).

(** The call of a REST method on the manager [f]. *)
Definition run_rest `{Platform W} `{TokenManager W} (f : FileStorageManager)
    (op : RestOp) : M W (option Returned) :=
  match op with
  | CallUploadBase64File a b c d => UploadBase64File f a b c d
  | CallDelete fileID => Delete f fileID
  | CallGetFileById fileID => GetFileById f fileID
  end.

(** The URL a REST method requests. *)
Definition rest_url (f : FileStorageManager) (op : RestOp) : string :=
  match op with
  | CallUploadBase64File _ _ _ _ => HostURI (config f) +:+ "/d/files"
  | CallDelete fileID => HostURI (config f) +:+ "/d/files/" +:+ fileID
  | CallGetFileById fileID => HostURI (config f) +:+ "/d/files/" +:+ fileID
  end.

(** The call gets as far as its loop: the arguments of an upload are all
    non-empty and its JSON body can be built. *)
Definition enters_loop `{Platform W} (op : RestOp) : Prop :=
  match op with
  | CallUploadBase64File a b c d =>
      a <> EmptyString /\ b <> EmptyString /\ c <> EmptyString
      /\ d <> EmptyString
      /\ is_Err (json_Marshal [("file_name", a); ("file_ext", b);
                               ("mime_type", c); ("binary_data_b64", d)]) = false
  | _ => True
  end.

Section Runs.
Context {W : Type} `{Platform W}.
Variable f : FileStorageManager.
Variable url : string.

(** The runs of the loop entered with a given value of [attempts]: the
    events of the run and the way the loop is left. *)
Inductive LoopRun : Z -> list Event -> LoopExit -> Prop :=
| run_exhausted attempts :
    maxRetry f <= attempts ->
    LoopRun attempts [] (Return (None, Some RetryExhausted))
| run_no_token attempts e :
    attempts < maxRetry f ->
    LoopRun attempts [EvGetToken (Some e)] (Return (None, Some e))
| run_no_request attempts e :
    attempts < maxRetry f ->
    url_Parse url = Some e ->
    LoopRun attempts [EvGetToken None] (Return (None, Some e))
| run_answer attempts req resp :
    attempts < maxRetry f ->
    url_Parse url = None ->
    StatusCode resp < 500 ->
    LoopRun attempts [EvGetToken None; EvDo req (Ok resp)] (Break resp)
| run_retry attempts req r rest x :
    attempts < maxRetry f ->
    url_Parse url = None ->
    transient r = true ->
    LoopRun (attempts + 1) rest x ->
    LoopRun attempts
      (EvGetToken None :: EvDo req r :: EvGenerateToken :: rest) x.
End Runs.

(** The twelve object-store methods and their arguments. *)
Inductive StoreOp :=
| CallAwsUpload (file : FileHeader) (subdirectory bucketname : string)
| CallAwsDelete (awsFileID bucketname : string)
| CallAwsGetFileById (awsFileID bucketname : string)
| CallAwsDownloadFile (awsFileID bucketname saveAsPath : string)
| CallAwsGetTemporaryPublicLink (awsFileID : string) (expiry : Time)
    (bucketname : string)
| CallGcsUpload (file : FileHeader) (subdirectory bucketname projectID : string)
| CallGcsDelete (gcsFileID bucketname projectID : string)
| CallGcsGetFileById (gcsFileID bucketname projectID : string)
| CallGcsDownloadFile (gcsFileID saveAsPath bucketname projectID : string)
| CallGcsGetFileByIdAsString (gcsFileID bucketname projectID : string)
| CallGcsGetFileByIdAsStream (gcsFileID bucketname projectID : string)
| CallGcsGetTemporaryPublicLink (gcsFileID : string) (expiry : Time)
    (bucketname projectID : string).

(** The call of an object-store method on the manager [f]. *)
Definition run_store `{Platform W} (f : FileStorageManager) (op : StoreOp)
    : M W Returned :=
  match op with
  | CallAwsUpload file sd b => AwsUpload f file sd b
  | CallAwsDelete id b => AwsDelete f id b
  | CallAwsGetFileById id b => AwsGetFileById f id b
  | CallAwsDownloadFile id b path => AwsDownloadFile f id b path
  | CallAwsGetTemporaryPublicLink id expiry b =>
      AwsGetTemporaryPublicLink f id expiry b
  | CallGcsUpload file sd b p => GcsUpload f file sd b p
  | CallGcsDelete id b p => GcsDelete f id b p
  | CallGcsGetFileById id b p => GcsGetFileById f id b p
  | CallGcsDownloadFile id path b p => GcsDownloadFile f id path b p
  | CallGcsGetFileByIdAsString id b p => GcsGetFileByIdAsString f id b p
  | CallGcsGetFileByIdAsStream id b p => GcsGetFileByIdAsStream f id b p
  | CallGcsGetTemporaryPublicLink id expiry b p =>
      GcsGetTemporaryPublicLink f id expiry b p
  end.

(** The multipart file of an upload can be opened and read. *)
Definition upload_readable (op : StoreOp) : Prop :=
  match op with
  | CallAwsUpload file _ _ | CallGcsUpload file _ _ _ =>
      exists src data, Open file = Ok src /\ ReadAll src = Ok data
  | _ => True
  end.

(** The messages an [ERR] response carries for a library call that failed
    with [e]. *)
Definition failure_message (e m : string) : Prop :=
  m = e
  \/ m = "Bucket not found"
  \/ (exists id, m = object_not_found id)
  \/ m = "Failed to read service account key: " +:+ e
  \/ m = "Failed to parse service account key: " +:+ e.

(** The name contains a dot. *)
Definition has_dot (s : string) : Prop :=
  In "."%char (list_ascii_of_string s).

(** The name contains no separator. *)
Definition no_sep (s : string) : Prop :=
  forall c, In c (list_ascii_of_string s) -> is_sep c = false.

(** What an upload records for a base name: the extension and the
    [FileName] cut out of the name. *)
Definition recorded_ext (base : string) : string := extension_of base.
Definition recorded_name (base : string) : string :=
  slice_to base (len base - len (extension_of base) - 1).

(** ** Worlds to run the methods in *)

Definition demo_config : Config :=
  mkConfig "https://files.test" "https://auth.test" "client" "secret"
           "AKIA" "aws-secret" "ap-southeast-1" "aws-bucket"
           "/run/key.json" "project" "gcs-bucket".

Definition token_url : string := "https://auth.test/token".

Definition reply (status : Z) (body : string) : Result Response :=
  Ok (mkResponse status (mkReader body None)).

(** The authorization server grants a token for [expires_in] seconds; the
    REST host answers 503 to the requests numbered below [ok_from] (counting
    every request sent, from 0) and 200 to the later ones. *)
Definition flaky_host (expires_in : Z) (ok_from : nat) : Outside :=
  mkOutside
    (fun n req =>
       if String.eqb (ReqURL req) token_url then (0, reply 200 "token")
       else if (n <? ok_from)%nat then (0, reply 503 "unavailable")
       else (0, reply 200 "done"))
    (fun body => Ok (mkTokenResponse "T1" "Bearer" expires_in))
    (fun body => Ok (response StatusSuccess body))
    (fun url => None) (fun name => None) (fun n => "uuid").

(** The first token lasts one second, the REST host takes two seconds to
    answer 503, and from then on the authorization server is unreachable. *)
Definition lost_token : Outside :=
  mkOutside
    (fun n req =>
       match n with
       | O => (0, reply 200 "token")
       | S O => (2 * Second, reply 503 "unavailable")
       | _ => (0, Err "dial tcp: connection refused")
       end)
    (fun body => Ok (mkTokenResponse "T1" "Bearer" 1))
    (fun body => Ok (response StatusSuccess body))
    (fun url => None) (fun name => None) (fun n => "uuid").

Definition empty_world (t : Z) : World := mkWorld t NewMemoryCache [] ∅ ∅ ∅ 0.

Definition empty_disk : FileSystem :=
  mkFileSystem ∅ (fun _ => None) (fun _ _ => None).

Definition demo_tm (o : Outside) : TokenManager World :=
  @CacheTokenManager_TokenManager World (World_Platform o) World_Cache
    (NewCacheTokenManager demo_config).

Definition demo_manager : FileStorageManager := NewFileStorageManager demo_config.

(** A REST method of the default manager, run in an empty world. *)
Definition demo_rest (o : Outside) (op : RestOp)
    : option Returned * State World :=
  @run_rest World (World_Platform o) (demo_tm o) demo_manager op
    (fresh (empty_world 1700000000000000000) empty_disk).

(** A world in which nothing fails: every request is answered 200. *)
Definition quiet : Outside := flaky_host 3600 0.

(** A world whose GCS bucket [gcs-bucket] exists and is empty. *)
Definition world_with_bucket : World :=
  mkWorld 1700000000000000000 NewMemoryCache [] ∅ {["gcs-bucket"]} ∅ 0.

(** The token request of the default token manager, the token the
    authorization server of [quiet] grants, and its answer. *)
Definition demo_token_request : Request :=
  mkRequest "POST" token_url
    "client_id=client&client_secret=secret&grant_type=client_credentials"
    [("Content-Type", "application/x-www-form-urlencoded")].

Definition demo_token : TokenResponse := mkTokenResponse "T1" "Bearer" 3600.

Definition demo_token_response : Response :=
  mkResponse 200 (mkReader "token" None).

(** The instant at which the demonstrations start. *)
Definition T0 : Z := 1700000000000000000.

(** A world whose S3 bucket holds one object, and a disk that is full after
    three bytes. *)
Definition world_with_object : World :=
  mkWorld T0 NewMemoryCache []
    {[ ("aws-bucket", "a.txt") := mkStoredObject "text/plain" "hello world" ]}
    {["gcs-bucket"]}
    {[ ("gcs-bucket", "a.txt") := mkStoredObject "text/plain" "hello world" ]}
    0.


(** A world in which opening the reader of a GCS object fails. *)
Definition broken_reader : Outside :=
  mkOutside (network quiet) (decode_token quiet) (decode_file quiet)
    (bad_url quiet)
    (fun name => if String.eqb name "obj.NewReader"
                 then Some "context deadline exceeded" else None)
    (uuids quiet).


(** ** Further methods and vocabulary *)


(** The [GetToken] calls among the events. *)
Fixpoint count_GetToken (tr : list Event) : Z :=
  match tr with
  | [] => 0
  | EvGetToken _ :: rest => 1 + count_GetToken rest
  | _ :: rest => count_GetToken rest
  end.

(** No library call among the events failed. *)
Definition no_failure (tr : list Event) : Prop :=
  forall name e, ~ In (EvCall name (Some e)) tr.




(** The calls that store the entry of [key]. *)
Definition sets (key : string) (op : CacheOp) : bool :=
  match op with
  | OpSet k _ _ => bool_decide (k = key)
  | _ => false
  end.





(** A world whose cache holds an old token that does not expire, an
    authorization server whose tokens carry no lifetime, and a manager
    without GCS credentials. *)
Definition world_with_old_token : World :=
  mkWorld T0 (MemoryCache_Set 0 "access_token" "OLD" 0 NewMemoryCache) []
    ∅ ∅ ∅ 0.



(** * Properties *)

(** ** 64-bit arithmetic *)

Lemma wrap64_in_range z : in_int64 z -> wrap64 z = z.
Proof.
  unfold in_int64, int64_min, int64_max, wrap64. intros Hz.
  rewrite Z.mod_small; lia.
Qed.

Lemma wrap64_overflow z :
  int64_max < z -> z < 2 ^ 64 - int64_min -> wrap64 z = z - 2 ^ 64.
Proof.
  unfold int64_min, int64_max, wrap64. intros H1 H2.
  replace (z + 2 ^ 63) with ((z - 2 ^ 63) + 1 * 2 ^ 64) by lia.
  rewrite Z.mod_add by lia. rewrite Z.mod_small; lia.
Qed.

Lemma wrap64_bounds z : in_int64 (wrap64 z).
Proof.
  unfold in_int64, int64_min, int64_max, wrap64.
  pose proof (Z.mod_pos_bound (z + 2 ^ 63) (2 ^ 64)). lia.
Qed.


(** ** The expiring cache *)

Lemma Get_lookup now key c :
  MemoryCache_Get now key c =
  match items c !! key with
  | Some it => if expired now it then ((EmptyString, false), c) else ((Value it, true), c)
  | None => ((EmptyString, false), c)
  end.
Proof. reflexivity. Qed.

Lemma Get_keeps_cache now key c : snd (MemoryCache_Get now key c) = c.
Proof.
  unfold MemoryCache_Get. destruct (items c !! key) as [it|]; [|reflexivity].
  destruct (expired now it); reflexivity.
Qed.

Lemma Has_keeps_cache now key c : snd (MemoryCache_Has now key c) = c.
Proof.
  unfold MemoryCache_Has. destruct (items c !! key) as [it|]; [|reflexivity].
  destruct (expired now it); reflexivity.
Qed.

Lemma Has_is_Get now key c :
  fst (MemoryCache_Has now key c) = snd (fst (MemoryCache_Get now key c)).
Proof.
  unfold MemoryCache_Has, MemoryCache_Get.
  destruct (items c !! key) as [it|]; [|reflexivity].
  destruct (expired now it); reflexivity.
Qed.

Lemma Set_lookup now0 key value ttl c :
  items (MemoryCache_Set now0 key value ttl c) !! key
  = Some (mkItem value (if 0 <? ttl then expiration_of now0 ttl else 0)).
Proof. unfold MemoryCache_Set. simpl. apply lookup_insert_eq. Qed.

(** The stored expiration of a positive ttl: the sum when it fits in
    [int64], a negative number when it does not. *)
Lemma expiration_of_cases now0 ttl :
  in_int64 now0 -> in_int64 ttl -> 0 < ttl ->
  (now0 + ttl <= int64_max /\ expiration_of now0 ttl = now0 + ttl)
  \/ (int64_max < now0 + ttl /\ expiration_of now0 ttl < 0).
Proof.
  unfold expiration_of. intros H0 Ht Hpos.
  destruct (Z_le_gt_dec (now0 + ttl) int64_max) as [Hle|Hgt].
  - left. split; [exact Hle|]. apply wrap64_in_range.
    unfold in_int64, int64_min, int64_max in *. lia.
  - right. split; [lia|].
    unfold in_int64, int64_min, int64_max in *.
    rewrite wrap64_overflow; unfold int64_min, int64_max; lia.
Qed.

Lemma expired_false_nonpos now it : Expiration it <= 0 -> expired now it = false.
Proof.
  intros H. unfold expired. destruct (0 <? Expiration it) eqn:E; [|reflexivity].
  apply Z.ltb_lt in E. lia.
Qed.

Lemma expired_false_before now it : now <= Expiration it -> expired now it = false.
Proof.
  intros H. unfold expired. destruct (Expiration it <? now) eqn:E.
  - apply Z.ltb_lt in E. lia.
  - apply andb_false_r.
Qed.

Lemma expired_true_after now it :
  0 < Expiration it -> Expiration it < now -> expired now it = true.
Proof.
  intros H1 H2. unfold expired.
  apply andb_true_intro. split; apply Z.ltb_lt; assumption.
Qed.

(** C6. An entry stored by [Set(key, value, ttl)] with [ttl > 0] on a clock
    that reads [now0] (at or after the epoch) is found by [Get] and [Has]
    at every instant strictly before [now0 + ttl] and is not found at every
    instant after it; neither [Get] nor [Has], at any instant and on any
    cache, changes the cache: in particular the expired entry stays
    stored. *)
Theorem cache_expiry (c : MemoryCache) (key value : string) (ttl now0 now : Z) :
  0 < ttl -> in_int64 ttl -> 0 <= now0 -> in_int64 now0 -> in_int64 now ->
  let c' := MemoryCache_Set now0 key value ttl c in
  (now < now0 + ttl ->
     MemoryCache_Get now key c' = ((value, true), c')
     /\ MemoryCache_Has now key c' = (true, c'))
  /\ (now0 + ttl < now ->
     MemoryCache_Get now key c' = ((EmptyString, false), c')
     /\ MemoryCache_Has now key c' = (false, c')
     /\ items (snd (MemoryCache_Get now key c')) !! key
        = Some (mkItem value (now0 + ttl))
     /\ items (snd (MemoryCache_Has now key c')) !! key
        = Some (mkItem value (now0 + ttl)))
  /\ (forall t k c0,
        snd (MemoryCache_Get t k c0) = c0 /\ snd (MemoryCache_Has t k c0) = c0).
Proof.
  intros Hpos Httl Hepoch Hnow0 Hnow c'.
  assert (Hl : items c' !! key = Some (mkItem value (expiration_of now0 ttl))).
  { unfold c'. rewrite Set_lookup.
    destruct (0 <? ttl) eqn:E; [reflexivity|]. apply Z.ltb_ge in E. lia. }
  destruct (expiration_of_cases now0 ttl Hnow0 Httl Hpos) as [[Hfit He]|[Hover He]].
  - split; [|split].
    + intros Hbefore.
      assert (Hx : expired now (mkItem value (expiration_of now0 ttl)) = false).
      { apply expired_false_before. simpl. lia. }
      unfold MemoryCache_Get, MemoryCache_Has. rewrite Hl, Hx. split; reflexivity.
    + intros Hafter.
      assert (Hx : expired now (mkItem value (expiration_of now0 ttl)) = true).
      { apply expired_true_after; simpl; lia. }
      rewrite Get_keeps_cache, Has_keeps_cache.
      unfold MemoryCache_Get, MemoryCache_Has. rewrite Hl, Hx, He.
      repeat split; reflexivity.
    + intros t k c0. split; [apply Get_keeps_cache | apply Has_keeps_cache].
  - split; [|split].
    + intros _.
      assert (Hx : expired now (mkItem value (expiration_of now0 ttl)) = false).
      { apply expired_false_nonpos. simpl. lia. }
      unfold MemoryCache_Get, MemoryCache_Has. rewrite Hl, Hx. split; reflexivity.
    + intros Hafter. exfalso. unfold in_int64 in Hnow. lia.
    + intros t k c0. split; [apply Get_keeps_cache | apply Has_keeps_cache].
Qed.

Lemma cache_expiry_witness :
  let c' := MemoryCache_Set 1000 "k" "v" 50 NewMemoryCache in
  (1049 < 1000 + 50 ->
     MemoryCache_Get 1049 "k" c' = (("v", true), c')
     /\ MemoryCache_Has 1049 "k" c' = (true, c'))
  /\ (1000 + 50 < 1049 ->
     MemoryCache_Get 1049 "k" c' = ((EmptyString, false), c')
     /\ MemoryCache_Has 1049 "k" c' = (false, c')
     /\ items (snd (MemoryCache_Get 1049 "k" c')) !! "k" = Some (mkItem "v" (1000 + 50))
     /\ items (snd (MemoryCache_Has 1049 "k" c')) !! "k" = Some (mkItem "v" (1000 + 50)))
  /\ (forall t k c0,
        snd (MemoryCache_Get t k c0) = c0 /\ snd (MemoryCache_Has t k c0) = c0).
Proof.
  apply (cache_expiry NewMemoryCache "k" "v" 50 1000 1049);
    unfold in_int64, int64_min, int64_max; lia.
Defined.

Lemma Set_nonpos_holds now0 key value ttl c :
  ttl <= 0 -> holds_forever key value (MemoryCache_Set now0 key value ttl c).
Proof.
  intros Httl. unfold holds_forever. rewrite Set_lookup.
  destruct (0 <? ttl) eqn:E; [|reflexivity]. apply Z.ltb_lt in E. lia.
Qed.

Lemma deleteExpired_keeps now key value c :
  holds_forever key value c ->
  holds_forever key value (MemoryCache_deleteExpired now c).
Proof.
  unfold holds_forever, MemoryCache_deleteExpired. simpl. intros Hl.
  apply map_lookup_filter_Some. split; [exact Hl|].
  simpl. apply expired_false_nonpos. simpl. lia.
Qed.

Lemma apply_op_keeps now op key value c :
  touches key op = false ->
  holds_forever key value c -> holds_forever key value (apply_op now op c).
Proof.
  intros Ht Hl. destruct op as [k v e|k|k|k|]; simpl in *.
  - apply bool_decide_eq_false in Ht. unfold holds_forever, MemoryCache_Set. simpl.
    rewrite lookup_insert_ne; [exact Hl | exact Ht].
  - rewrite Get_keeps_cache. exact Hl.
  - rewrite Has_keeps_cache. exact Hl.
  - apply bool_decide_eq_false in Ht. unfold holds_forever, MemoryCache_Delete. simpl.
    rewrite lookup_delete_ne; [exact Hl | exact Ht].
  - apply deleteExpired_keeps. exact Hl.
Qed.

Lemma run_ops_keeps ops key value : forall c,
  forallb (fun top : Z * CacheOp => negb (touches key (snd top))) ops = true ->
  holds_forever key value c -> holds_forever key value (run_ops ops c).
Proof.
  induction ops as [|[now op] rest IH]; intros c Hall Hl; simpl in *.
  - exact Hl.
  - apply andb_prop in Hall. destruct Hall as [Hop Hrest].
    apply IH; [exact Hrest|]. apply apply_op_keeps; [|exact Hl].
    apply negb_true_iff in Hop. exact Hop.
Qed.

(** C7. An entry stored by [Set(key, value, ttl)] with [ttl <= 0] never
    expires: after any later history of calls that neither set nor delete
    that key (reads of any key, writes of other keys, janitor sweeps, at any
    instants), [Get] returns [(value, true)] and [Has] returns [true] at
    every instant, and a sweep at any instant leaves the entry in the map. *)
Theorem non_expiring_entry (c : MemoryCache) (key value : string)
    (ttl now0 : Z) (ops : list (Z * CacheOp)) (now : Z) :
  ttl <= 0 ->
  forallb (fun top : Z * CacheOp => negb (touches key (snd top))) ops = true ->
  let c' := run_ops ops (MemoryCache_Set now0 key value ttl c) in
  MemoryCache_Get now key c' = ((value, true), c')
  /\ MemoryCache_Has now key c' = (true, c')
  /\ items (MemoryCache_deleteExpired now c') !! key = Some (mkItem value 0).
Proof.
  intros Httl Hops c'.
  assert (Hl : holds_forever key value c').
  { unfold c'. apply run_ops_keeps; [exact Hops|].
    apply Set_nonpos_holds. exact Httl. }
  split; [|split].
  - unfold MemoryCache_Get. rewrite Hl.
    rewrite expired_false_nonpos by (simpl; lia). reflexivity.
  - unfold MemoryCache_Has. rewrite Hl.
    rewrite expired_false_nonpos by (simpl; lia). reflexivity.
  - apply (deleteExpired_keeps now key value c' Hl).
Qed.

Lemma non_expiring_entry_witness :
  let ops := [(5, OpSweep); (7, OpSet "other" "x" 1); (900, OpSweep);
              (901, OpGet "k"); (902, OpDelete "other")] in
  let c' := run_ops ops (MemoryCache_Set 1 "k" "v" 0 NewMemoryCache) in
  MemoryCache_Get (2 ^ 62) "k" c' = (("v", true), c')
  /\ MemoryCache_Has (2 ^ 62) "k" c' = (true, c')
  /\ items (MemoryCache_deleteExpired (2 ^ 62) c') !! "k" = Some (mkItem "v" 0).
Proof.
  apply (non_expiring_entry NewMemoryCache "k" "v" 0 1); [lia | reflexivity].
Defined.

(** ** The token manager *)



Lemma set_mcache_same w : set_mcache (mcache w) w = w.
Proof. destruct w; reflexivity. Qed.

Lemma World_Cache_Get_miss key w :
  snd (fst (MemoryCache_Get (clock w) key (mcache w))) = false ->
  exists tok, @Cache_Get World World_Cache key w = ((tok, false), w).
Proof.
  intros Hmiss. simpl.
  pose proof (Get_keeps_cache (clock w) key (mcache w)) as Hk.
  destruct (MemoryCache_Get (clock w) key (mcache w)) as [[tok ex] c0].
  simpl in *. subst. exists tok. rewrite set_mcache_same. reflexivity.
Qed.

Lemma World_Cache_Get_hit key value w :
  MemoryCache_Get (clock w) key (mcache w) = ((value, true), mcache w) ->
  @Cache_Get World World_Cache key w = ((value, true), w).
Proof. intros Hhit. simpl. rewrite Hhit, set_mcache_same. reflexivity. Qed.

(** A token stored at instant [t0] with a duration [ttl] is still served at
    [t0 + d] when the entry does not expire or [d] is within [ttl]. *)
Lemma Get_within_ttl t0 key value ttl c d :
  in_int64 t0 -> in_int64 ttl -> 0 <= d -> (ttl <= 0 \/ d <= ttl) ->
  let c' := MemoryCache_Set t0 key value ttl c in
  MemoryCache_Get (t0 + d) key c' = ((value, true), c').
Proof.
  intros Ht0 Httl Hd Hlive c'. unfold MemoryCache_Get.
  unfold c' at 1. rewrite Set_lookup.
  destruct (0 <? ttl) eqn:E.
  - apply Z.ltb_lt in E. destruct Hlive as [Hl|Hl]; [lia|].
    destruct (expiration_of_cases t0 ttl Ht0 Httl E) as [[_ He]|[_ He]].
    + rewrite expired_false_before by (simpl; lia). reflexivity.
    + rewrite expired_false_nonpos by (simpl; lia). reflexivity.
  - rewrite expired_false_nonpos by (simpl; lia). reflexivity.
Qed.

(** C9. On a cache without a live token, let the first [GetToken] obtain a
    token from the authorization server.  A second [GetToken], made [d]
    nanoseconds after the token was stored, while the entry is live (it does
    not expire, or [d] is within its TTL), returns the same token; over both
    calls exactly one request has been sent, the token request of the first
    call, and the second call leaves the world as it found it. *)
Theorem token_reuse (o : Outside) (t : CacheTokenManager) (w0 : World)
    (req : Request) (latency : Z) (resp : Response) (body : string)
    (tokenResp : TokenResponse) (d : Z) :
  snd (fst (MemoryCache_Get (clock w0) (tokenKey t) (mcache w0))) = false ->
  @token_request World (World_Platform o) t = Ok req ->
  network o (length (sent w0)) req = (latency, Ok resp) ->
  ReadAll (Body resp) = Ok body ->
  decode_token o body = Ok tokenResp ->
  in_int64 (clock w0 + latency) ->
  0 <= d ->
  (seconds (ExpiresIn tokenResp) <= 0 \/ d <= seconds (ExpiresIn tokenResp)) ->
  let GetToken :=
    @CacheTokenManager_GetToken World (World_Platform o) World_Cache t in
  let '(r1, w1) := GetToken w0 in
  let '(r2, w2) := GetToken (elapse d w1) in
  r1 = (AccessToken tokenResp, None)
  /\ r2 = (AccessToken tokenResp, None)
  /\ sent w2 = (sent w0 ++ [req])%list
  /\ w2 = elapse d w1.
Proof.
  intros Hmiss Hreq Hnet Hread Hjson Hclock Hd Hlive GetToken.
  unfold GetToken, CacheTokenManager_GetToken.
  destruct (World_Cache_Get_miss (tokenKey t) w0 Hmiss) as [tok0 Hget0].
  rewrite Hget0. simpl negb. cbv iota.
  unfold CacheTokenManager_GenerateToken. rewrite Hreq.
  simpl client_Do. rewrite Hnet, Hread.
  simpl json_Unmarshal_TokenResponse. rewrite Hjson.
  set (w1 := Cache_Set _ _ _ _).
  assert (Hhit : MemoryCache_Get (clock (elapse d w1)) (tokenKey t)
                   (mcache (elapse d w1))
                 = ((AccessToken tokenResp, true), mcache (elapse d w1))).
  { unfold w1. simpl.
    apply (Get_within_ttl (clock w0 + latency) (tokenKey t)
             (AccessToken tokenResp) (seconds (ExpiresIn tokenResp))
             (mcache w0) d Hclock (wrap64_bounds _) Hd Hlive). }
  rewrite (World_Cache_Get_hit _ _ _ Hhit). simpl.
  repeat split; reflexivity.
Qed.

(** The theorem at work: a token granted for an hour is served again a
    hundred seconds later, with one request sent in all. *)
Lemma token_reuse_witness :
  let GetToken :=
    @CacheTokenManager_GetToken World (World_Platform quiet) World_Cache
      (NewCacheTokenManager demo_config) in
  let '(r1, w1) := GetToken (empty_world T0) in
  let '(r2, w2) := GetToken (elapse (100 * Second) w1) in
  r1 = (AccessToken demo_token, None)
  /\ r2 = (AccessToken demo_token, None)
  /\ sent w2 = (sent (empty_world T0) ++ [demo_token_request])%list
  /\ w2 = elapse (100 * Second) w1.
Proof.
  apply (token_reuse quiet (NewCacheTokenManager demo_config) (empty_world T0)
           demo_token_request 0 demo_token_response "token" demo_token
           (100 * Second)); try reflexivity.
  - unfold in_int64. vm_compute. split; discriminate.
  - unfold Second. lia.
  - right. vm_compute. discriminate.
Defined.

(** ** The REST backend: the retry loop *)

Section RetryLoop.
Context {W : Type} `{Platform W} `{TokenManager W}.
Variable f : FileStorageManager.
Variables method url body : string.

(** With fuel for the iterations that remain the loop finishes, and what
    it does is a [LoopRun]; it leaves the disk alone. *)
Lemma retry_loop_runs : forall (fuel : nat) (attempts : Z) (s : State W),
  maxRetry f - attempts <= Z.of_nat fuel ->
  exists new,
    trace (snd (retry_loop f method url body fuel attempts s))
      = (trace s ++ new)%list
    /\ disk (snd (retry_loop f method url body fuel attempts s)) = disk s
    /\ LoopRun f url attempts new (fst (retry_loop f method url body fuel attempts s)).
Proof.
  induction fuel as [|fuel IH]; intros attempts s Hfuel.
  - simpl. destruct (maxRetry f <=? attempts) eqn:E.
    + apply Z.leb_le in E. exists []. simpl. rewrite app_nil_r.
      repeat split. constructor. exact E.
    + apply Z.leb_gt in E. simpl in Hfuel. lia.
  - simpl. destruct (maxRetry f <=? attempts) eqn:E.
    + apply Z.leb_le in E. exists []. simpl. rewrite app_nil_r.
      repeat split. constructor. exact E.
    + apply Z.leb_gt in E. unfold bind, tm_GetToken.
      destruct (GetToken (ext s)) as [[token err] w1].
      destruct err as [e|].
      * exists [EvGetToken (Some e)]. simpl. repeat split.
        constructor. exact E.
      * unfold http_NewRequest. destruct (url_Parse url) as [e|] eqn:Hurl.
        { exists [EvGetToken None]. simpl. repeat split.
          constructor; assumption. }
        unfold http_Do. simpl ext.
        match goal with
        | |- context [client_Do ?r w1] => set (req := r)
        end.
        destruct (client_Do req w1) as [r w2] eqn:Hdo.
        assert (Hretry : transient r = true ->
          exists new,
            trace (snd ((tm_GenerateToken ;;; retry_loop f method url body fuel (attempts + 1))%go
                     (mkState w2 (disk s) ((trace s ++ [EvGetToken None]) ++ [EvDo req r]))))
            = (trace s ++ new)%list
            /\ disk (snd ((tm_GenerateToken ;;; retry_loop f method url body fuel (attempts + 1))%go
                     (mkState w2 (disk s) ((trace s ++ [EvGetToken None]) ++ [EvDo req r]))))
               = disk s
            /\ LoopRun f url attempts new
                 (fst ((tm_GenerateToken ;;; retry_loop f method url body fuel (attempts + 1))%go
                     (mkState w2 (disk s) ((trace s ++ [EvGetToken None]) ++ [EvDo req r]))))).
        { intros Htr. unfold bind, tm_GenerateToken. simpl ext.
          destruct (GenerateToken w2) as [g w3]. simpl disk. simpl trace.
          destruct (IH (attempts + 1)
                      (mkState w3 (disk s)
                         (((trace s ++ [EvGetToken None]) ++ [EvDo req r])
                            ++ [EvGenerateToken]))) as (new & Ht & Hd & Hrun).
          { rewrite Nat2Z.inj_succ in Hfuel. lia. }
          exists (EvGetToken None :: EvDo req r :: EvGenerateToken :: new).
          split; [|split].
          - rewrite Ht. simpl. rewrite <- !app_assoc. reflexivity.
          - rewrite Hd. reflexivity.
          - apply run_retry; assumption. }
        destruct r as [resp|e].
        { simpl. destruct (500 <=? StatusCode resp) eqn:E5.
          - apply Hretry. simpl. exact E5.
          - apply Z.leb_gt in E5.
            exists [EvGetToken None; EvDo req (Ok resp)]. simpl.
            split; [|split].
            + rewrite <- app_assoc. reflexivity.
            + reflexivity.
            + apply run_answer; assumption. }
        { apply Hretry. reflexivity. }
Qed.
End RetryLoop.

Section RetryLoopFacts.
Context {W : Type} `{Platform W} `{TokenManager W}.
Variable f : FileStorageManager.
Variable url : string.

Lemma LoopRun_finishes attempts new x :
  LoopRun f url attempts new x -> x <> OutOfFuel.
Proof. induction 1; congruence. Qed.

(** A failed [GetToken] is the last thing a run does, and its error is
    what the run returns. *)
Lemma LoopRun_no_token attempts new x :
  LoopRun f url attempts new x ->
  forall e before after,
    new = (before ++ EvGetToken (Some e) :: after)%list ->
    after = [] /\ x = Return (None, Some e).
Proof.
  induction 1 as [a Ha|a e0 Ha|a e0 Ha Hu|a req resp Ha Hu Hs
                 |a req r rest x Ha Hu Ht Hrun IH];
    intros e before after Heq.
  - destruct before; discriminate.
  - destruct before as [|b before]; simpl in Heq.
    + inversion Heq; subst. split; reflexivity.
    + inversion Heq. destruct before; discriminate.
  - destruct before as [|b before]; simpl in Heq.
    + discriminate.
    + inversion Heq. destruct before; discriminate.
  - destruct before as [|b1 [|b2 before]]; simpl in Heq.
    + discriminate.
    + discriminate.
    + inversion Heq. destruct before; discriminate.
  - destruct before as [|b1 [|b2 [|b3 before]]]; simpl in Heq;
      try discriminate.
    inversion Heq; subst. eapply IH. reflexivity.
Qed.

(** When every [GetToken] succeeds, the request can be built and every
    attempt is transient, the run ends by exhaustion after one forced
    regeneration per remaining attempt. *)
Lemma LoopRun_exhausts attempts new x :
  LoopRun f url attempts new x ->
  attempts <= maxRetry f ->
  url_Parse url = None ->
  (forall err, In (EvGetToken err) new -> err = None) ->
  (forall req r, In (req, r) (attempts_of new) -> transient r = true) ->
  x = Return (None, Some RetryExhausted)
  /\ count_regen new = maxRetry f - attempts.
Proof.
  induction 1 as [a Ha|a e0 Ha|a e0 Ha Hu|a req resp Ha Hu Hs
                 |a req r rest x Ha Hu Ht Hrun IH];
    intros Hle Hurl Htok Hall.
  - split; [reflexivity|]. simpl. lia.
  - specialize (Htok (Some e0) (or_introl eq_refl)). discriminate.
  - congruence.
  - specialize (Hall req (Ok resp)). simpl in Hall.
    specialize (Hall (or_introl eq_refl)).
    apply Z.leb_le in Hall. lia.
  - destruct IH as [Hx Hc].
    + lia.
    + exact Hurl.
    + intros err Hin. apply Htok. simpl. auto.
    + intros req' r' Hin. apply (Hall req' r'). simpl. auto.
    + split; [exact Hx|]. simpl. rewrite Hc. lia.
Qed.

(** When the attempt number [k] gets a response below 500, the run leaves
    the loop with that response after [k - 1] forced regenerations, and
    [k] is within the bound. *)
Lemma LoopRun_answered attempts new x :
  LoopRun f url attempts new x ->
  forall (k : nat) req resp,
    nth_error (attempts_of new) k = Some (req, Ok resp) ->
    StatusCode resp < 500 ->
    x = Break resp
    /\ count_regen new = Z.of_nat k
    /\ attempts + Z.of_nat k + 1 <= maxRetry f.
Proof.
  induction 1 as [a Ha|a e0 Ha|a e0 Ha Hu|a req0 resp0 Ha Hu Hs
                 |a req0 r rest x Ha Hu Ht Hrun IH];
    intros k req resp Hnth Hlt.
  - destruct k; discriminate.
  - destruct k; discriminate.
  - destruct k; discriminate.
  - destruct k as [|k]; simpl in Hnth.
    + inversion Hnth; subst. repeat split; simpl; lia.
    + destruct k; discriminate.
  - destruct k as [|k]; simpl in Hnth.
    + inversion Hnth; subst. simpl in Ht. apply Z.leb_le in Ht. lia.
    + destruct (IH k req resp Hnth Hlt) as (Hx & Hc & Hb).
      split; [exact Hx|]. split.
      * simpl count_regen. rewrite Hc. lia.
      * lia.
Qed.

(** [rest_call] is the loop entered with [attempts = 0], followed by the
    decoding of the response when there is one. *)
Lemma rest_call_runs method body (s : State W) :
  exists new x,
    LoopRun f url 0 new x
    /\ trace (snd (rest_call f method url body s)) = (trace s ++ new)%list
    /\ disk (snd (rest_call f method url body s)) = disk s
    /\ fst (rest_call f method url body s)
       = match x with
         | Return r => Some r
         | Break resp => Some (parse_FileResponse resp)
         | OutOfFuel => None
         end.
Proof.
  destruct (retry_loop_runs f method url body (Z.to_nat (maxRetry f)) 0 s)
    as (new & Ht & Hd & Hrun); [lia|].
  unfold rest_call, bind.
  destruct (retry_loop f method url body (Z.to_nat (maxRetry f)) 0 s)
    as [x s'] eqn:Hloop.
  simpl in Ht, Hd, Hrun. exists new, x.
  destruct x; simpl; auto.
Qed.
End RetryLoopFacts.

Section RestMethods.
Context {W : Type} `{Platform W} `{TokenManager W}.
Variable f : FileStorageManager.

Lemma is_empty_false s : s <> EmptyString -> is_empty s = false.
Proof. intros Hs. unfold is_empty. apply bool_decide_eq_false. exact Hs. Qed.

(** A REST method either returns an error before its loop, doing nothing,
    or is [rest_call] on its URL. *)
Lemma run_rest_cases (op : RestOp) :
  (exists e, forall s : State W, run_rest f op s = (Some (None, Some e), s))
  \/ (exists method body,
        run_rest f op = rest_call f method (rest_url f op) body).
Proof.
  destruct op as [a b c d|fileID|fileID]; simpl.
  - unfold UploadBase64File.
    destruct (is_empty a || is_empty b || is_empty c || is_empty d).
    + left. eexists. intros s. reflexivity.
    + destruct (json_Marshal _) as [jsonData|e].
      * right. eexists _, _. reflexivity.
      * left. eexists. intros s. reflexivity.
  - right. eexists _, _. reflexivity.
  - right. eexists _, _. reflexivity.
Qed.

(** Every REST method returns: the fuel given to the loop is enough. *)
Lemma run_rest_returns (op : RestOp) (s : State W) :
  exists r, fst (run_rest f op s) = Some r.
Proof.
  destruct (run_rest_cases op) as [[e He]|(m & b & Heq)].
  - rewrite He. eexists. reflexivity.
  - rewrite Heq.
    destruct (rest_call_runs f (rest_url f op) m b s)
      as (new & x & HR & _ & _ & Hf).
    rewrite Hf. pose proof (LoopRun_finishes f (rest_url f op) 0 new x HR) as Hx.
    destruct x; [eexists; reflexivity | eexists; reflexivity | congruence].
Qed.

Lemma run_rest_enters (op : RestOp) :
  enters_loop op ->
  exists method body, run_rest f op = rest_call f method (rest_url f op) body.
Proof.
  destruct op as [a b c d|fileID|fileID]; simpl.
  - intros (Ha & Hb & Hc & Hd & Hj). unfold UploadBase64File.
    rewrite !is_empty_false by assumption. simpl.
    destruct (json_Marshal _) as [jsonData|e]; [|discriminate].
    eexists _, _. reflexivity.
  - intros _. eexists _, _. reflexivity.
  - intros _. eexists _, _. reflexivity.
Qed.
End RestMethods.

(** C1, as stated, fails: with [maxRetry = 3], the only HTTP attempt of this
    [Delete] ends in a 503, yet the call performs one forced regeneration,
    not three, and fails with the error of [GetToken], not with
    [RetryExhausted]. *)
Lemma retry_bound_needs_token :
  let '(r, s') := demo_rest lost_token (CallDelete "f1") in
  1 <= maxRetry demo_manager
  /\ (forall req x, In (req, x) (attempts_of (trace s')) -> transient x = true)
  /\ r = Some (None, Some "dial tcp: connection refused")
  /\ count_regen (trace s') = 1
  /\ ~ (r = Some (None, Some RetryExhausted)
        /\ count_regen (trace s') = maxRetry demo_manager).
Proof.
  vm_compute. split; [discriminate|]. split.
  - intros req x [Heq|[]]. inversion Heq. reflexivity.
  - split; [reflexivity|]. split; [reflexivity|].
    intros [Hr _]. discriminate.
Qed.

(** C1, amended. For a REST method ([UploadBase64File], [Delete],
    [GetFileById]) started on an empty record of events:
    - if [maxRetry >= 1], the call gets as far as its loop, its request can
      be built, every [GetToken] call of the loop succeeds and every HTTP
      attempt ends in a transport failure or a 5xx response, then the call
      performs exactly [maxRetry] forced regenerations and fails with
      [RetryExhausted];
    - if the attempt number [k] gets a response below 500, then
      [k <= maxRetry], the call performs exactly [k - 1] forced
      regenerations and returns what reading and decoding the body of that
      response gives: the decoded [FileResponse] when the body is read and
      decodes. *)
Theorem retry_bound {W : Type} `{Platform W} `{TokenManager W}
    (f : FileStorageManager) (op : RestOp) (w : W) (fs : FileSystem) :
  let '(r, s') := run_rest f op (fresh w fs) in
  (1 <= maxRetry f ->
   enters_loop op ->
   url_Parse (rest_url f op) = None ->
   (forall err, In (EvGetToken err) (trace s') -> err = None) ->
   (forall req x, In (req, x) (attempts_of (trace s')) -> transient x = true) ->
   r = Some (None, Some RetryExhausted)
   /\ count_regen (trace s') = maxRetry f)
  /\ (forall (k : Z) req resp,
        1 <= k ->
        nth_error (attempts_of (trace s')) (Z.to_nat (k - 1)) = Some (req, Ok resp) ->
        StatusCode resp < 500 ->
        k <= maxRetry f
        /\ count_regen (trace s') = k - 1
        /\ r = Some (parse_FileResponse resp)
        /\ (forall body fileResponse,
              ReadAll (Body resp) = Ok body ->
              json_Unmarshal_FileResponse body = Ok fileResponse ->
              r = Some (Some fileResponse, None))).
Proof.
  destruct (run_rest f op (fresh w fs)) as [r s'] eqn:Hrun. split.
  - intros Hmax Henter Hurl Htok Hall.
    destruct (run_rest_enters f op Henter) as (m & b & Heq).
    rewrite Heq in Hrun.
    destruct (rest_call_runs f (rest_url f op) m b (fresh w fs))
      as (new & x & HR & Ht & Hd & Hf).
    rewrite Hrun in Ht, Hf. simpl in Ht, Hf. subst r.
    rewrite Ht in Htok, Hall |- *.
    destruct (LoopRun_exhausts f (rest_url f op) 0 new x HR) as [Hx Hc];
      try assumption; try lia.
    subst x. split; [reflexivity|]. rewrite Hc. lia.
  - intros k req resp Hk Hnth Hlt.
    destruct (run_rest_cases f op) as [[e He]|(m & b & Heq)].
    + rewrite He in Hrun. inversion Hrun; subst. simpl in Hnth.
      destruct (Z.to_nat (k - 1)); discriminate.
    + rewrite Heq in Hrun.
      destruct (rest_call_runs f (rest_url f op) m b (fresh w fs))
        as (new & x & HR & Ht & Hd & Hf).
      rewrite Hrun in Ht, Hf. simpl in Ht, Hf. subst r.
      rewrite Ht in Hnth |- *.
      destruct (LoopRun_answered f (rest_url f op) 0 new x HR _ _ _ Hnth Hlt)
        as (Hx & Hc & Hb).
      subst x. rewrite Z2Nat.id in Hc, Hb by lia.
      split; [lia|]. split; [lia|]. split; [reflexivity|].
      intros body fileResponse Hread Hjson.
      unfold parse_FileResponse. rewrite Hread, Hjson. reflexivity.
Qed.

(** The theorem at work: a host that always answers 503 exhausts the three
    attempts of a [Delete] after three forced regenerations; a host that
    answers 503 twice and then 200 is answered on the third attempt of a
    [GetFileById], after two forced regenerations, with status [OK]. *)
Lemma retry_bound_witness :
  (let '(r, s') := demo_rest (flaky_host 3600 1000) (CallDelete "f1") in
   r = Some (None, Some RetryExhausted) /\ count_regen (trace s') = 3)
  /\ (let '(r, s') := demo_rest (flaky_host 3600 5) (CallGetFileById "f1") in
      3 <= maxRetry demo_manager
      /\ count_regen (trace s') = 3 - 1
      /\ r = Some (Some (response StatusSuccess "done"), None)).
Proof.
  split.
  - pose proof (@retry_bound World (World_Platform (flaky_host 3600 1000))
                  (demo_tm (flaky_host 3600 1000)) demo_manager
                  (CallDelete "f1") (empty_world 1700000000000000000)
                  empty_disk) as Hthm.
    fold (demo_rest (flaky_host 3600 1000) (CallDelete "f1")) in Hthm.
    destruct (demo_rest (flaky_host 3600 1000) (CallDelete "f1"))
      as [r s'] eqn:Hrun.
    destruct Hthm as [Hexhaust _].
    vm_compute in Hrun. inversion Hrun; subst r s'; clear Hrun.
    apply Hexhaust.
    + vm_compute. discriminate.
    + exact I.
    + reflexivity.
    + intros err Hin. simpl in Hin.
      repeat (destruct Hin as [Hin|Hin]; [inversion Hin; reflexivity|]);
        try discriminate; destruct Hin.
    + intros req x Hin. simpl in Hin.
      repeat (destruct Hin as [Hin|Hin]; [inversion Hin; reflexivity|]).
      destruct Hin.
  - pose proof (@retry_bound World (World_Platform (flaky_host 3600 5))
                  (demo_tm (flaky_host 3600 5)) demo_manager
                  (CallGetFileById "f1") (empty_world 1700000000000000000)
                  empty_disk) as Hthm.
    fold (demo_rest (flaky_host 3600 5) (CallGetFileById "f1")) in Hthm.
    destruct (demo_rest (flaky_host 3600 5) (CallGetFileById "f1"))
      as [r s'] eqn:Hrun.
    destruct Hthm as [_ Hanswer].
    vm_compute in Hrun. inversion Hrun; subst r s'; clear Hrun.
    edestruct (Hanswer 3) as (Hk & Hc & _ & Hr).
    + lia.
    + reflexivity.
    + simpl. lia.
    + split; [exact Hk|]. split; [exact Hc|].
      apply (Hr "done"); reflexivity.
Defined.

Lemma attempts_of_app tr1 tr2 :
  attempts_of (tr1 ++ tr2) = (attempts_of tr1 ++ attempts_of tr2)%list.
Proof.
  induction tr1 as [|ev tr1 IH]; simpl; [reflexivity|].
  destruct ev; simpl; rewrite IH; reflexivity.
Qed.

Lemma count_regen_app tr1 tr2 :
  count_regen (tr1 ++ tr2) = count_regen tr1 + count_regen tr2.
Proof.
  induction tr1 as [|ev tr1 IH]; simpl; [reflexivity|].
  destruct ev; simpl; rewrite IH; lia.
Qed.

(** C5. In a REST method ([UploadBase64File], [Delete], [GetFileById]), a
    [GetToken] call that fails, on whichever iteration, is the last thing the
    method does, and the method returns the error of that call: after it no
    HTTP request is sent, no token is regenerated (the attempt counter is
    incremented only together with a regeneration) and [GetToken] is not
    called again. *)
Theorem no_retry_without_token {W : Type} `{Platform W} `{TokenManager W}
    (f : FileStorageManager) (op : RestOp) (w : W) (fs : FileSystem) :
  let '(r, s') := run_rest f op (fresh w fs) in
  forall e before after,
    trace s' = (before ++ EvGetToken (Some e) :: after)%list ->
    after = []
    /\ r = Some (None, Some e)
    /\ attempts_of (trace s') = attempts_of before
    /\ count_regen (trace s') = count_regen before.
Proof.
  destruct (run_rest f op (fresh w fs)) as [r s'] eqn:Hrun.
  intros e before after Htrace.
  destruct (run_rest_cases f op) as [[e0 He]|(m & b & Heq)].
  - rewrite He in Hrun. inversion Hrun; subst. simpl in Htrace.
    destruct before; discriminate.
  - rewrite Heq in Hrun.
    destruct (rest_call_runs f (rest_url f op) m b (fresh w fs))
      as (new & x & HR & Ht & Hd & Hf).
    rewrite Hrun in Ht, Hf. simpl in Ht, Hf. subst r.
    rewrite Ht in Htrace.
    destruct (LoopRun_no_token f (rest_url f op) 0 new x HR e before after Htrace)
      as [Hafter Hx].
    subst after x. split; [reflexivity|]. split; [reflexivity|].
    rewrite Ht, Htrace, attempts_of_app, count_regen_app. simpl.
    rewrite app_nil_r. split; [reflexivity | lia].
Qed.

(** The theorem at work: the second [GetToken] of this [Delete] fails; the
    call returns its error after the single attempt and the single
    regeneration that came before it. *)
Lemma no_retry_without_token_witness :
  let '(r, s') := demo_rest lost_token (CallDelete "f1") in
  r = Some (None, Some "dial tcp: connection refused")
  /\ length (attempts_of (trace s')) = 1%nat
  /\ count_regen (trace s') = 1.
Proof.
  pose proof (@no_retry_without_token World (World_Platform lost_token)
                (demo_tm lost_token) demo_manager (CallDelete "f1")
                (empty_world 1700000000000000000) empty_disk) as Hthm.
  fold (demo_rest lost_token (CallDelete "f1")) in Hthm.
  destruct (demo_rest lost_token (CallDelete "f1")) as [r s'] eqn:Hrun.
  vm_compute in Hrun. inversion Hrun; subst r s'; clear Hrun.
  simpl trace in Hthm |- *.
  match type of Hthm with
  | forall e before after, ?tr = _ -> _ =>
      destruct (Hthm "dial tcp: connection refused" (firstn 3 tr) [] eq_refl)
        as (_ & Hret & _ & _)
  end.
  split; [exact Hret|]. split; reflexivity.
Defined.

(** ** The object-store backends *)

Ltac go_simpl := cbn beta iota zeta delta [ext disk trace fst snd err_of app].

Ltac go_unfold :=
  repeat (progress (unfold closing_client, GetAwsClient, GetGcsClient,
    gcs_bucket_exists, gcs_object_attrs, default_expiry, fresh, bind, ret, call,
    call_pure, call_disk, on_disk, on_world, read_world, step_world));
  go_simpl.

Ltac destruct_call c := destruct c as [[?|?] ?] eqn:?; go_unfold.
Ltac destruct_pure c := destruct c as [?|?] eqn:?; go_unfold.

(** One library call of the method under the cursor, split into its
    outcomes. *)
Ltac go_step :=
  match goal with
  | |- context [session_NewSession ?a ?b ?c ?w] =>
      destruct_call (session_NewSession a b c w)
  | |- context [s3_PutObject ?a ?b ?c ?d ?w] =>
      destruct_call (s3_PutObject a b c d w)
  | |- context [s3_DeleteObject ?a ?b ?w] => destruct_call (s3_DeleteObject a b w)
  | |- context [s3_GetObject ?a ?b ?w] => destruct_call (s3_GetObject a b w)
  | |- context [s3_Presign ?a ?b ?c ?w] => destruct_call (s3_Presign a b c w)
  | |- context [storage_NewClient ?a ?w] => destruct_call (storage_NewClient a w)
  | |- context [gcs_BucketAttrs ?a ?w] => destruct_call (gcs_BucketAttrs a w)
  | |- context [gcs_ObjectAttrs ?a ?b ?w] => destruct_call (gcs_ObjectAttrs a b w)
  | |- context [gcs_Write ?a ?b ?c ?d ?w] => destruct_call (gcs_Write a b c d w)
  | |- context [gcs_WriterClose ?a ?b ?w] => destruct_call (gcs_WriterClose a b w)
  | |- context [gcs_Delete ?a ?b ?w] => destruct_call (gcs_Delete a b w)
  | |- context [gcs_NewReader ?a ?b ?w] => destruct_call (gcs_NewReader a b w)
  | |- context [ioutil_ReadFile ?a ?w] => destruct_call (ioutil_ReadFile a w)
  | |- context [os_Create ?a ?w] => destruct_call (os_Create a w)
  | |- context [io_Copy ?a ?b ?w] => destruct_call (io_Copy a b w)
  | |- context [uuid_New ?w] => destruct (uuid_New w) as [? ?] eqn:?; go_unfold
  | |- context [json_Unmarshal_keyData ?a] =>
      destruct_pure (json_Unmarshal_keyData a)
  | |- context [storage_SignedURL ?a ?b ?c ?d ?e] =>
      destruct_pure (storage_SignedURL a b c d e)
  | |- context [ReadAll ?a] => destruct_pure (ReadAll a)
  | |- context [Open ?a] => destruct_pure (Open a)
  | |- context [if is_empty ?a || is_empty ?b then _ else _] =>
      destruct (is_empty a || is_empty b) eqn:?; go_unfold
  | |- context [match ?e with Some _ => _ | None => _ end] =>
      is_var e; destruct e; go_unfold
  end.

Ltac go_run := go_unfold; repeat go_step.

(** A failed call among the events at hand. *)
Ltac find_failure H :=
  simpl in H;
  repeat (destruct H as [H|H]; [try discriminate|]);
  try (exfalso; exact H).

(** C4. For each of the twelve object-store methods: when a library call of
    the method fails (building the client, looking up the bucket or the
    object, reading, writing, deleting, signing, and the local calls on the
    way), the method returns a [FileResponse] with status [ERR] and a
    message, the text of the error or the fixed text of the lookup that
    failed, together with a [nil] error.  A non-[nil] error is returned only
    by an upload whose multipart file cannot be opened or read: every other
    call returns a response and a [nil] error. *)
Theorem store_failures_are_responses {W : Type} `{Platform W}
    (f : FileStorageManager) (op : StoreOp) (w : W) (fs : FileSystem) :
  let '(r, s') := run_store f op (fresh w fs) in
  (forall name e,
     In (EvCall name (Some e)) (trace s') ->
     exists m, r = (Some (response StatusError m), None) /\ failure_message e m)
  /\ (upload_readable op -> exists resp, r = (Some resp, None)).
Proof.
  unfold failure_message.
  destruct op; simpl run_store; simpl upload_readable.
  1, 6: match goal with
        | |- context [Open ?file] =>
            destruct (Open file) as [src|e0] eqn:Hopen;
            [destruct (ReadAll src) as [data|e0] eqn:Hread|]
        end.
  all: try (unfold AwsUpload, GcsUpload; rewrite Hopen; try rewrite Hread).
  all: unfold AwsUpload, AwsDelete, AwsGetFileById, AwsDownloadFile,
         AwsGetTemporaryPublicLink, GcsUpload, GcsDelete, GcsGetFileById,
         GcsDownloadFile, GcsGetFileByIdAsString, GcsGetFileByIdAsStream,
         GcsGetTemporaryPublicLink.
  all: go_run.
  all: split;
    [ intros name e' Hin; find_failure Hin;
      try (inversion Hin; subst; eexists; split; [reflexivity | eauto 8])
    | intros Hup; try (eexists; reflexivity) ].
  all: destruct Hup as (src' & data' & Ho & Hr); congruence.
Qed.

(** The theorem at work: a reader that cannot be opened gives an [ERR]
    response with the text of the error. *)
Lemma store_failures_are_responses_witness :
  let '(r, s') :=
    @run_store World (World_Platform broken_reader) demo_manager
      (CallGcsGetFileById "a.txt" EmptyString EmptyString)
      (fresh world_with_object empty_disk) in
  exists m,
    r = (Some (response StatusError m), None)
    /\ failure_message "context deadline exceeded" m.
Proof.
  pose proof (@store_failures_are_responses World (World_Platform broken_reader)
                demo_manager (CallGcsGetFileById "a.txt" EmptyString EmptyString)
                world_with_object empty_disk) as Hthm.
  destruct (@run_store World (World_Platform broken_reader) demo_manager
              (CallGcsGetFileById "a.txt" EmptyString EmptyString)
              (fresh world_with_object empty_disk)) as [r s'] eqn:Hrun.
  destruct Hthm as [Hfail _]. apply (Hfail "obj.NewReader").
  vm_compute in Hrun. inversion Hrun. simpl. auto 8.
Defined.

(** C2, as stated, fails for [AwsDelete]: the method makes no lookup, and
    S3's [DeleteObject] reports success for a key that does not exist, so
    deleting a missing key returns status [OK]. *)
Lemma AwsDelete_missing_key_is_OK :
  s3_objects world_with_bucket !! ("aws-bucket", "missing.txt") = None
  /\ let '(r, s') :=
       @AwsDelete World (World_Platform quiet) demo_manager "missing.txt"
         EmptyString (fresh world_with_bucket empty_disk) in
     r = (Some (response StatusSuccess "DELETE missing.txt"), None)
     /\ ~ (exists m, r = (Some (response StatusError m), None)).
Proof.
  split; [reflexivity|]. vm_compute.
  split; [reflexivity|]. intros [m Hm]. discriminate.
Qed.

(** C2, amended. [GcsDelete] on a key whose lookup in the bucket fails (the
    object does not exist) returns the response [ERR] with the message
    [Object <key> not found] and a [nil] error.  [AwsDelete] looks nothing
    up: it returns [ERR] with the text of the error, and a [nil] error, when
    building the client or [DeleteObject] fails, and [OK] with the message
    [DELETE <key>] when neither does. *)
Theorem delete_missing_object {W : Type} `{Platform W}
    (f : FileStorageManager) (id bucketname projectID : string)
    (w : W) (fs : FileSystem) :
  (let '(r, s') := GcsDelete f id bucketname projectID (fresh w fs) in
   forall e,
     In (EvCall "obj.Attrs" (Some e)) (trace s') ->
     r = (Some (response StatusError ("Object " +:+ id +:+ " not found")), None))
  /\ (let '(r, s') := AwsDelete f id bucketname (fresh w fs) in
      (exists name e,
         In (EvCall name (Some e)) (trace s')
         /\ r = (Some (response StatusError e), None))
      \/ ((forall name e, ~ In (EvCall name (Some e)) (trace s'))
          /\ r = (Some (response StatusSuccess ("DELETE " +:+ id)), None))).
Proof.
  split.
  - unfold GcsDelete. go_run.
    all: intros e' Hin; find_failure Hin; try (inversion Hin); reflexivity.
  - unfold AwsDelete. go_run.
    + right. split; [|reflexivity]. intros name e' Hin. find_failure Hin.
    + left. eexists _, _. split; [|reflexivity]. simpl. auto.
    + left. eexists _, _. split; [|reflexivity]. simpl. auto.
Qed.

(** The theorem at work: deleting a missing key from an existing GCS bucket. *)
Lemma delete_missing_object_witness :
  gcs_objects world_with_bucket !! ("gcs-bucket", "missing.txt") = None
  /\ let '(r, s') :=
       @GcsDelete World (World_Platform quiet) demo_manager "missing.txt"
         EmptyString EmptyString (fresh world_with_bucket empty_disk) in
     r = (Some (response StatusError "Object missing.txt not found"), None).
Proof.
  split; [reflexivity|].
  pose proof (@delete_missing_object World (World_Platform quiet) demo_manager
                "missing.txt" EmptyString EmptyString world_with_bucket
                empty_disk) as [Hgcs _].
  destruct (@GcsDelete World (World_Platform quiet) demo_manager "missing.txt"
              EmptyString EmptyString (fresh world_with_bucket empty_disk))
    as [r s'] eqn:Hrun.
  apply (Hgcs "storage: object doesn't exist").
  vm_compute in Hrun. inversion Hrun; subst r s'; clear Hrun.
  simpl. auto.
Defined.

(** ** Downloads to the local disk *)



(** ** File names of uploads *)

Lemma length_string_of_list l :
  String.length (string_of_list_ascii l) = length l.
Proof. induction l as [|c l IH]; simpl; [reflexivity | rewrite IH; reflexivity]. Qed.

Lemma append_cons x (a b : string) : String x a +:+ b = String x (a +:+ b).
Proof. reflexivity. Qed.

Lemma string_of_list_app l1 l2 :
  string_of_list_ascii (l1 ++ l2)
  = string_of_list_ascii l1 +:+ string_of_list_ascii l2.
Proof.
  induction l1 as [|c l1 IH]; simpl; [reflexivity|].
  rewrite append_cons, IH. reflexivity.
Qed.

Lemma substring_prefix l1 l2 :
  String.substring 0 (length l1) (string_of_list_ascii (l1 ++ l2))
  = string_of_list_ascii l1.
Proof. induction l1 as [|c l1 IH]; simpl; [destruct (string_of_list_ascii l2); reflexivity | rewrite IH; reflexivity]. Qed.

Lemma append_assoc_string (a b c : string) : (a +:+ b) +:+ c = a +:+ (b +:+ c).
Proof.
  induction a as [|x a IH]; [reflexivity|].
  rewrite !append_cons, IH. reflexivity.
Qed.

Lemma string_as_list s : exists l, s = string_of_list_ascii l /\ list_ascii_of_string s = l.
Proof. exists (list_ascii_of_string s). split; [symmetry; apply string_of_list_ascii_of_string | reflexivity]. Qed.

Lemma is_dot_true c : is_dot c = true -> c = "."%char.
Proof. apply Ascii.eqb_eq. Qed.

Lemma is_dot_false c : is_dot c = false -> c <> "."%char.
Proof. apply Ascii.eqb_neq. Qed.

(** Without a dot [filepath.Ext] finds no extension. *)
Lemma ext_scan_no_dot rpath : forall suffix,
  ~ In "."%char rpath -> ext_scan rpath suffix = EmptyString.
Proof.
  induction rpath as [|c more IH]; intros suffix Hno; simpl; [reflexivity|].
  destruct (is_sep c); [reflexivity|].
  destruct (is_dot c) eqn:Ed.
  - exfalso. apply Hno. left. apply is_dot_true. exact Ed.
  - apply IH. intros Hin. apply Hno. right. exact Hin.
Qed.

(** With a dot and no separator it finds what starts at the last dot. *)
Lemma ext_scan_dot rpath : forall suffix,
  (forall c, In c rpath -> is_sep c = false) ->
  In "."%char rpath ->
  exists rext rstem,
    rpath = (rext ++ "."%char :: rstem)%list
    /\ ~ In "."%char rext
    /\ ext_scan rpath suffix
       = string_of_list_ascii ("."%char :: rev rext ++ suffix).
Proof.
  induction rpath as [|c more IH]; intros suffix Hsep Hdot; [destruct Hdot|].
  simpl. rewrite (Hsep c (or_introl eq_refl)).
  destruct (is_dot c) eqn:Ed.
  - apply is_dot_true in Ed. subst c. exists [], more. simpl. auto.
  - apply is_dot_false in Ed.
    destruct Hdot as [Hc|Hdot]; [congruence|].
    destruct (IH (c :: suffix)) as (rext & rstem & Hp & Hno & He).
    + intros c' Hin. apply Hsep. right. exact Hin.
    + exact Hdot.
    + exists (c :: rext), rstem. split; [|split].
      * simpl. rewrite Hp. reflexivity.
      * intros [Hc|Hin]; [congruence | contradiction].
      * rewrite He. simpl. rewrite <- app_assoc. reflexivity.
Qed.

Lemma last_element_no_sep rpath c :
  In c (last_element rpath) -> is_sep c = false.
Proof.
  induction rpath as [|x more IH]; simpl; [intros []|].
  destruct (is_sep x) eqn:Ex; [intros []|].
  intros [Hx|Hin]; [subst; exact Ex | apply IH; exact Hin].
Qed.

(** [filepath.Base] never returns the empty string, and its result is the
    lone separator or contains none. *)
Lemma filepath_Base_shape path :
  filepath_Base path <> EmptyString
  /\ (filepath_Base path = "/" \/ no_sep (filepath_Base path)).
Proof.
  unfold filepath_Base. destruct path as [|a path].
  - split; [discriminate|]. right. intros c [Hc|[]]. subst. reflexivity.
  - destruct (last_element _) as [|x l] eqn:El.
    + split; [discriminate|]. left. reflexivity.
    + split.
      * intros Hempty.
        apply (f_equal String.length) in Hempty.
        rewrite length_string_of_list, length_rev in Hempty. discriminate.
      * right. intros c Hin.
        rewrite list_ascii_of_string_of_list_ascii in Hin.
        apply in_rev in Hin. rewrite <- El in Hin.
        apply (last_element_no_sep _ _ Hin).
Qed.

Lemma recorded_no_dot base :
  base <> EmptyString -> ~ has_dot base ->
  recorded_ext base = EmptyString
  /\ exists c, base = recorded_name base +:+ String c EmptyString.
Proof.
  intros Hne Hno. unfold recorded_ext, recorded_name, extension_of, filepath_Ext.
  rewrite ext_scan_no_dot.
  2:{ intros Hin. apply Hno. unfold has_dot. apply in_rev. exact Hin. }
  split; [reflexivity|].
  destruct (string_as_list base) as (l & Hs & _). subst base.
  destruct (exists_last (l:=l)) as (l' & c & Hl).
  { intros ->. apply Hne. reflexivity. }
  subst l. exists c. unfold slice_to, len. simpl String.length.
  rewrite length_string_of_list, length_app. simpl length.
  match goal with
  | |- context [Z.to_nat ?z] => replace (Z.to_nat z) with (length l') by lia
  end.
  rewrite substring_prefix, string_of_list_app. reflexivity.
Qed.

Lemma recorded_dot base :
  no_sep base -> has_dot base ->
  recorded_name base +:+ "." +:+ recorded_ext base = base.
Proof.
  intros Hsep Hdot. unfold recorded_ext, recorded_name, extension_of, filepath_Ext.
  destruct (ext_scan_dot (rev (list_ascii_of_string base)) []) as (rext & rstem & Hp & Hno & He).
  - intros c Hin. apply Hsep. apply in_rev. exact Hin.
  - apply in_rev in Hdot. exact Hdot.
  - rewrite He. simpl. rewrite app_nil_r.
    assert (Hbase : base = string_of_list_ascii (rev rstem ++ "."%char :: rev rext)).
    { rewrite <- (string_of_list_ascii_of_string base) at 1.
      rewrite <- (rev_involutive (list_ascii_of_string base)), Hp.
      rewrite rev_app_distr. simpl. rewrite <- app_assoc. reflexivity. }
    rewrite Hbase. unfold slice_to, len.
    rewrite !length_string_of_list, length_app. simpl length.
    match goal with
    | |- context [Z.to_nat ?z] =>
        replace (Z.to_nat z) with (length (rev rstem)) by lia
    end.
    rewrite substring_prefix, string_of_list_app. reflexivity.
Qed.

Lemma append_has_dot a b : has_dot (a +:+ "." +:+ b).
Proof.
  unfold has_dot. induction a as [|x a IH]; [left; reflexivity|].
  rewrite append_cons. right. exact IH.
Qed.

Lemma length_append_string (a b : string) :
  String.length (a +:+ b) = (String.length a + String.length b)%nat.
Proof.
  induction a as [|x a IH]; [reflexivity|].
  rewrite append_cons. simpl. rewrite IH. reflexivity.
Qed.

Lemma append_empty_r (a : string) : a +:+ EmptyString = a.
Proof.
  induction a as [|x a IH]; [reflexivity|].
  rewrite append_cons, IH. reflexivity.
Qed.

Lemma has_dot_dec base : {has_dot base} + {~ has_dot base}.
Proof. unfold has_dot. apply in_dec. apply ascii_dec. Qed.

(** What the two uploads record for the base name of any path. *)
Lemma upload_names path :
  let base := filepath_Base path in
  (~ has_dot base ->
   recorded_ext base = EmptyString
   /\ (exists c, base = recorded_name base +:+ String c EmptyString)
   /\ recorded_name base <> base)
  /\ (recorded_name base +:+ "." +:+ recorded_ext base = base <-> has_dot base).
Proof.
  intros base. destruct (filepath_Base_shape path) as [Hne Hshape].
  fold base in Hne, Hshape. split.
  - intros Hno. destruct (recorded_no_dot base Hne Hno) as [He [c Hc]].
    split; [exact He|]. split; [exists c; exact Hc|].
    intros Heq. apply (f_equal String.length) in Hc.
    rewrite length_append_string, Heq in Hc. simpl in Hc. lia.
  - split.
    + intros Heq. rewrite <- Heq. apply append_has_dot.
    + intros Hdot. destruct Hshape as [Hroot|Hsep].
      * rewrite Hroot in Hdot. unfold has_dot in Hdot. simpl in Hdot.
        destruct Hdot as [Hd|[]]. discriminate.
      * apply recorded_dot; assumption.
Qed.

(** The slice expression of the uploads is always in range. *)
Lemma upload_slice_in_range path :
  let base := filepath_Base path in
  0 <= len base - len (extension_of base) - 1 <= len base.
Proof.
  intros base. destruct (upload_names path) as [Hno Hdot]. fold base in Hno, Hdot.
  destruct (filepath_Base_shape path) as [Hne _]. fold base in Hne.
  unfold len. destruct (has_dot_dec base) as [Hd|Hd].
  - apply Hdot in Hd. apply (f_equal String.length) in Hd.
    rewrite !length_append_string in Hd. unfold recorded_ext in Hd.
    simpl in Hd. lia.
  - destruct (Hno Hd) as (He & _ & _). unfold recorded_ext in He. rewrite He.
    simpl. destruct base; [congruence|]. simpl String.length. lia.
Qed.



(** * Further properties *)

(** ** The expiring cache: sweep, delete, overwrite *)

Lemma expired_monotone now t it : now <= t -> expired now it = true -> expired t it = true.
Proof.
  unfold expired. intros Hle Hx. apply andb_prop in Hx. destruct Hx as [H0 H1].
  apply Z.ltb_lt in H0, H1. apply andb_true_intro. split; apply Z.ltb_lt; lia.
Qed.

Lemma deleteExpired_lookup now c key :
  items (MemoryCache_deleteExpired now c) !! key
  = match items c !! key with
    | Some it => if expired now it then None else Some it
    | None => None
    end.
Proof.
  unfold MemoryCache_deleteExpired. simpl.
  destruct (items c !! key) as [it|] eqn:Hl.
  - destruct (expired now it) eqn:Hx.
    + apply map_lookup_filter_None. right. intros x Hx'. simpl.
      rewrite Hl in Hx'. inversion Hx'; subst. congruence.
    + apply map_lookup_filter_Some. split; [exact Hl | exact Hx].
  - apply map_lookup_filter_None. left. exact Hl.
Qed.

(** X1. A sweep is invisible to readers: at the instant of the sweep and at
    every later instant, [Get] and [Has] report for every key what they
    would have reported without the sweep. *)
Theorem sweep_is_invisible (now t : Z) (key : string) (c : MemoryCache) :
  now <= t ->
  fst (MemoryCache_Get t key (MemoryCache_deleteExpired now c))
    = fst (MemoryCache_Get t key c)
  /\ fst (MemoryCache_Has t key (MemoryCache_deleteExpired now c))
     = fst (MemoryCache_Has t key c).
Proof.
  intros Hle. unfold MemoryCache_Get, MemoryCache_Has.
  rewrite deleteExpired_lookup.
  destruct (items c !! key) as [it|]; [|split; reflexivity].
  destruct (expired now it) eqn:Hx.
  - rewrite (expired_monotone now t it Hle Hx). split; reflexivity.
  - destruct (expired t it); split; reflexivity.
Qed.

Lemma sweep_is_invisible_witness :
  let c := MemoryCache_Set 1000 "k" "v" 50 NewMemoryCache in
  fst (MemoryCache_Get 2000 "k" (MemoryCache_deleteExpired 1500 c))
    = fst (MemoryCache_Get 2000 "k" c)
  /\ fst (MemoryCache_Has 2000 "k" (MemoryCache_deleteExpired 1500 c))
     = fst (MemoryCache_Has 2000 "k" c).
Proof. apply (sweep_is_invisible 1500 2000 "k"). lia. Defined.

(** X2. After a sweep the map holds exactly the entries that were not
    expired at the instant of the sweep: none that is left is expired, none
    that was live is lost, the map has not grown, and a second sweep at the
    same instant changes nothing. *)
Theorem sweep_leaves_the_live (now : Z) (c : MemoryCache) :
  (forall key it,
     items (MemoryCache_deleteExpired now c) !! key = Some it
     <-> items c !! key = Some it /\ expired now it = false)
  /\ (size (items (MemoryCache_deleteExpired now c)) <= size (items c))%nat
  /\ MemoryCache_deleteExpired now (MemoryCache_deleteExpired now c)
     = MemoryCache_deleteExpired now c.
Proof.
  split; [|split].
  - intros key it. rewrite deleteExpired_lookup.
    destruct (items c !! key) as [it'|].
    + destruct (expired now it') eqn:Hx; split.
      * discriminate.
      * intros [Heq Hf]. inversion Heq; subst. congruence.
      * intros Heq. inversion Heq; subst. auto.
      * intros [Heq _]. exact Heq.
    + split; [discriminate | intros [Hn _]; discriminate].
  - unfold MemoryCache_deleteExpired. simpl.
    apply map_subseteq_size, map_filter_subseteq.
  - destruct (MemoryCache_deleteExpired now c) as [m] eqn:Hm.
    unfold MemoryCache_deleteExpired at 1. simpl. f_equal.
    apply map_eq. intros key.
    pose proof (deleteExpired_lookup now c key) as Hl. rewrite Hm in Hl. simpl in Hl.
    destruct (m !! key) as [it|] eqn:Hk.
    + apply map_lookup_filter_Some. split; [exact Hk|]. simpl.
      destruct (items c !! key) as [it'|]; [|discriminate].
      destruct (expired now it') eqn:Hx; [discriminate|].
      inversion Hl; subst. exact Hx.
    + apply map_lookup_filter_None. left. exact Hk.
Qed.

(** X3. [Delete] forgets the key at once and for every instant, whatever
    its expiration was; it does not change what is reported for any other
    key, and deleting a key that is not stored leaves the cache as it is. *)
Theorem Delete_forgets (t : Z) (key other : string) (c : MemoryCache) :
  fst (MemoryCache_Get t key (MemoryCache_Delete key c)) = (EmptyString, false)
  /\ fst (MemoryCache_Has t key (MemoryCache_Delete key c)) = false
  /\ (other <> key ->
      fst (MemoryCache_Get t other (MemoryCache_Delete key c))
        = fst (MemoryCache_Get t other c)
      /\ fst (MemoryCache_Has t other (MemoryCache_Delete key c))
         = fst (MemoryCache_Has t other c))
  /\ (items c !! key = None -> MemoryCache_Delete key c = c).
Proof.
  unfold MemoryCache_Get, MemoryCache_Has, MemoryCache_Delete. simpl.
  rewrite lookup_delete_eq. split; [reflexivity|]. split; [reflexivity|]. split.
  - intros Hne. rewrite lookup_delete_ne by congruence.
    destruct (items c !! other) as [it|]; [|split; reflexivity].
    destruct (expired t it); split; reflexivity.
  - intros Hn. destruct c as [m]. simpl in *. f_equal. apply delete_id. exact Hn.
Qed.

(** X4. The expiry test is strict: at the very instant [now0 + ttl] the
    entry is still found, by [Get] and by [Has], and a sweep at that instant
    keeps it. *)
Theorem found_at_expiration (c : MemoryCache) (key value : string) (ttl now0 : Z) :
  0 < ttl -> in_int64 ttl -> in_int64 now0 ->
  let c' := MemoryCache_Set now0 key value ttl c in
  MemoryCache_Get (now0 + ttl) key c' = ((value, true), c')
  /\ MemoryCache_Has (now0 + ttl) key c' = (true, c')
  /\ items (MemoryCache_deleteExpired (now0 + ttl) c') !! key
     = items c' !! key.
Proof.
  intros Hpos Httl Hnow0 c'.
  assert (Hl : items c' !! key = Some (mkItem value (expiration_of now0 ttl))).
  { unfold c'. rewrite Set_lookup.
    destruct (0 <? ttl) eqn:E; [reflexivity|]. apply Z.ltb_ge in E. lia. }
  assert (Hx : expired (now0 + ttl) (mkItem value (expiration_of now0 ttl)) = false).
  { destruct (expiration_of_cases now0 ttl Hnow0 Httl Hpos) as [[_ He]|[_ He]].
    - apply expired_false_before. simpl. lia.
    - apply expired_false_nonpos. simpl. lia. }
  split; [|split].
  - unfold MemoryCache_Get. rewrite Hl, Hx. reflexivity.
  - unfold MemoryCache_Has. rewrite Hl, Hx. reflexivity.
  - rewrite deleteExpired_lookup, Hl, Hx. reflexivity.
Qed.

Lemma found_at_expiration_witness :
  let c' := MemoryCache_Set 1000 "k" "v" 50 NewMemoryCache in
  MemoryCache_Get (1000 + 50) "k" c' = (("v", true), c')
  /\ MemoryCache_Has (1000 + 50) "k" c' = (true, c')
  /\ items (MemoryCache_deleteExpired (1000 + 50) c') !! "k" = items c' !! "k".
Proof.
  apply (found_at_expiration NewMemoryCache "k" "v" 50 1000);
    unfold in_int64, int64_min, int64_max; lia.
Defined.

(** X5. The last [Set] of a key wins: it replaces value and expiration of
    an earlier one, as if the earlier one had not happened; and a [Set]
    changes nothing of what is reported for another key. *)
Theorem Set_overwrites (n1 n2 t1 t2 t : Z) (key v1 v2 other : string)
    (c : MemoryCache) :
  MemoryCache_Set n2 key v2 t2 (MemoryCache_Set n1 key v1 t1 c)
    = MemoryCache_Set n2 key v2 t2 c
  /\ (other <> key ->
      fst (MemoryCache_Get t other (MemoryCache_Set n1 key v1 t1 c))
        = fst (MemoryCache_Get t other c)
      /\ fst (MemoryCache_Has t other (MemoryCache_Set n1 key v1 t1 c))
         = fst (MemoryCache_Has t other c)).
Proof.
  split.
  - unfold MemoryCache_Set. simpl. f_equal. apply insert_insert_eq.
  - intros Hne. unfold MemoryCache_Get, MemoryCache_Has, MemoryCache_Set. simpl.
    rewrite lookup_insert_ne by congruence.
    destruct (items c !! other) as [it|]; [|split; reflexivity].
    destruct (expired t it); split; reflexivity.
Qed.

(** ** The token manager: what is cached and when *)



(** X7. A forced regeneration replaces whatever token was cached: after a
    [GenerateToken] that succeeds, a [GetToken] made while the new entry is
    live (it does not expire, or no more than its TTL has passed) returns the
    new token, sends nothing and changes nothing. *)
Theorem regenerated_token_is_served (o : Outside) (t : CacheTokenManager)
    (w0 : World) (req : Request) (latency : Z) (resp : Response)
    (body : string) (tokenResp : TokenResponse) (d : Z) :
  @token_request World (World_Platform o) t = Ok req ->
  network o (length (sent w0)) req = (latency, Ok resp) ->
  ReadAll (Body resp) = Ok body ->
  decode_token o body = Ok tokenResp ->
  in_int64 (clock w0 + latency) ->
  0 <= d ->
  (seconds (ExpiresIn tokenResp) <= 0 \/ d <= seconds (ExpiresIn tokenResp)) ->
  let '(r1, w1) :=
    @CacheTokenManager_GenerateToken World (World_Platform o) World_Cache t w0 in
  let '(r2, w2) :=
    @CacheTokenManager_GetToken World (World_Platform o) World_Cache t
      (elapse d w1) in
  r1 = (AccessToken tokenResp, None)
  /\ r2 = (AccessToken tokenResp, None)
  /\ w2 = elapse d w1
  /\ sent w1 = (sent w0 ++ [req])%list.
Proof.
  intros Hreq Hnet Hread Hjson Hclock Hd Hlive.
  unfold CacheTokenManager_GenerateToken. rewrite Hreq.
  simpl client_Do. rewrite Hnet, Hread.
  simpl json_Unmarshal_TokenResponse. rewrite Hjson.
  set (w1 := Cache_Set _ _ _ _).
  assert (Hhit : MemoryCache_Get (clock (elapse d w1)) (tokenKey t)
                   (mcache (elapse d w1))
                 = ((AccessToken tokenResp, true), mcache (elapse d w1))).
  { unfold w1. simpl.
    apply (Get_within_ttl (clock w0 + latency) (tokenKey t)
             (AccessToken tokenResp) (seconds (ExpiresIn tokenResp))
             (mcache w0) d Hclock (wrap64_bounds _) Hd Hlive). }
  unfold CacheTokenManager_GetToken.
  rewrite (World_Cache_Get_hit _ _ _ Hhit). simpl.
  repeat split; reflexivity.
Qed.

Lemma regenerated_token_is_served_witness :
  let '(r1, w1) :=
    @CacheTokenManager_GenerateToken World (World_Platform quiet) World_Cache
      (NewCacheTokenManager demo_config) world_with_old_token in
  let '(r2, w2) :=
    @CacheTokenManager_GetToken World (World_Platform quiet) World_Cache
      (NewCacheTokenManager demo_config) (elapse (100 * Second) w1) in
  r1 = (AccessToken demo_token, None)
  /\ r2 = (AccessToken demo_token, None)
  /\ w2 = elapse (100 * Second) w1
  /\ sent w1 = (sent world_with_old_token ++ [demo_token_request])%list.
Proof.
  apply (regenerated_token_is_served quiet (NewCacheTokenManager demo_config)
           world_with_old_token demo_token_request 0 demo_token_response
           "token" demo_token (100 * Second)); try reflexivity.
  - unfold in_int64. vm_compute. split; discriminate.
  - unfold Second. lia.
  - right. vm_compute. discriminate.
Defined.



(** ** The REST backend: effort and the multipart upload *)

Section RetryEffort.
Context {W : Type} `{Platform W} `{TokenManager W}.
Variable f : FileStorageManager.
Variable url : string.

Lemma LoopRun_effort attempts new x :
  LoopRun f url attempts new x ->
  let n := Z.of_nat (length (attempts_of new)) in
  n <= Z.max 0 (maxRetry f - attempts)
  /\ count_regen new <= n
  /\ n - 1 <= count_regen new
  /\ n <= count_GetToken new
  /\ count_GetToken new <= n + 1.
Proof.
  induction 1 as [a Ha|a e0 Ha|a e0 Ha Hu|a req resp Ha Hu Hs
                 |a req r rest x Ha Hu Ht Hrun IH]; simpl in *; lia.
Qed.
End RetryEffort.

(** X10. Whatever the token manager and the host do, a REST method
    ([UploadBase64File], [Delete], [GetFileById]) sends at most [maxRetry]
    requests (none when [maxRetry <= 0]), regenerates the token once per
    request or once less, asks [GetToken] once per request or once more, and
    leaves the local disk alone. *)
Theorem rest_effort_is_bounded {W : Type} `{Platform W} `{TokenManager W}
    (f : FileStorageManager) (op : RestOp) (w : W) (fs : FileSystem) :
  let '(r, s') := run_rest f op (fresh w fs) in
  let n := Z.of_nat (length (attempts_of (trace s'))) in
  n <= Z.max 0 (maxRetry f)
  /\ count_regen (trace s') <= n
  /\ n - 1 <= count_regen (trace s')
  /\ n <= count_GetToken (trace s')
  /\ count_GetToken (trace s') <= n + 1
  /\ disk s' = fs.
Proof.
  destruct (run_rest f op (fresh w fs)) as [r s'] eqn:Hrun.
  destruct (run_rest_cases f op) as [[e He]|(m & b & Heq)].
  - rewrite He in Hrun. inversion Hrun; subst. simpl. repeat split; lia.
  - rewrite Heq in Hrun.
    destruct (rest_call_runs f (rest_url f op) m b (fresh w fs))
      as (new & x & HR & Ht & Hd & Hf).
    rewrite Hrun in Ht, Hd. simpl in Ht, Hd. rewrite Ht.
    pose proof (LoopRun_effort f (rest_url f op) 0 new x HR) as He.
    simpl in He. rewrite Z.sub_0_r in He.
    destruct He as (E1 & E2 & E3 & E4 & E5). repeat split; assumption.
Qed.



(** ** The object-store backends: success, credentials, downloads, links *)

(** A failed call among the events contradicts [Hok], which says that there
    is none. *)
Ltac no_failure_contra Hok :=
  exfalso;
  first
    [ eapply Hok; simpl; left; reflexivity
    | eapply Hok; simpl; right; left; reflexivity
    | eapply Hok; simpl; right; right; left; reflexivity
    | eapply Hok; simpl; right; right; right; left; reflexivity
    | eapply Hok; simpl; right; right; right; right; left; reflexivity
    | eapply Hok; simpl; right; right; right; right; right; left; reflexivity
    | eapply Hok; simpl; right; right; right; right; right; right; left;
      reflexivity ].

(** X12. An object-store method answers [OK] whenever none of its library
    calls failed (and, for an upload, the multipart file could be read):
    with the theorem on failures, the status is [ERR] exactly when a call
    failed. *)
Theorem store_success_is_OK {W : Type} `{Platform W}
    (f : FileStorageManager) (op : StoreOp) (w : W) (fs : FileSystem) :
  let '(r, s') := run_store f op (fresh w fs) in
  upload_readable op ->
  no_failure (trace s') ->
  exists resp, r = (Some resp, None) /\ Status resp = StatusSuccess.
Proof.
  unfold no_failure.
  destruct op; simpl run_store; simpl upload_readable.
  1, 6: match goal with
        | |- context [Open ?file] =>
            destruct (Open file) as [src|e0] eqn:Hopen;
            [destruct (ReadAll src) as [data|e0] eqn:Hread|]
        end.
  all: try (unfold AwsUpload, GcsUpload; rewrite Hopen; try rewrite Hread).
  all: unfold AwsUpload, AwsDelete, AwsGetFileById, AwsDownloadFile,
         AwsGetTemporaryPublicLink, GcsUpload, GcsDelete, GcsGetFileById,
         GcsDownloadFile, GcsGetFileByIdAsString, GcsGetFileByIdAsStream,
         GcsGetTemporaryPublicLink.
  all: go_run.
  all: intros Hup Hok.
  all: try (eexists; split; reflexivity).
  all: try (destruct Hup as (src' & data' & Ho & Hr); congruence).
  all: no_failure_contra Hok.
Qed.




(** X14. A download touches one path only, and on success that path holds
    what the reader delivered: whatever the outcome, every other path of the
    local disk is as before; when the answer is [OK], the file at the target
    path is exactly the bytes of a reader that ended without error. *)
Theorem download_writes_one_file {W : Type} `{Platform W}
    (f : FileStorageManager) (id bucketname projectID saveAsPath other : string)
    (w : W) (fs : FileSystem) :
  (let '(r, s') := AwsDownloadFile f id bucketname saveAsPath (fresh w fs) in
   (other <> saveAsPath -> files (disk s') !! other = files fs !! other)
   /\ (forall resp, r = (Some resp, None) -> Status resp = StatusSuccess ->
       exists w1 w2 out,
         s3_GetObject (default_bucket bucketname (AWSBucket (config f))) id w1
           = (Ok out, w2)
         /\ rd_err (s3_Body out) = None
         /\ files (disk s') !! saveAsPath = Some (rd_data (s3_Body out))))
  /\ (let '(r, s') :=
        GcsDownloadFile f id saveAsPath bucketname projectID (fresh w fs) in
      (other <> saveAsPath -> files (disk s') !! other = files fs !! other)
      /\ (forall resp, r = (Some resp, None) -> Status resp = StatusSuccess ->
          exists w1 w2 reader,
            gcs_NewReader (default_bucket bucketname (GCSBucket (config f))) id w1
              = (Ok reader, w2)
            /\ rd_err reader = None
            /\ files (disk s') !! saveAsPath = Some (rd_data reader))).
Proof.
  assert (Hcreate : forall path fs0 h fs1,
            os_Create path fs0 = (Ok h, fs1) ->
            h = path /\ files fs1 = <[path := EmptyString]> (files fs0)).
  { intros path fs0 h fs1. unfold os_Create.
    destruct (create_err fs0 path); intros Heq; inversion Heq; subst.
    split; reflexivity. }
  assert (Hcreate_err : forall path fs0 e fs1,
            os_Create path fs0 = (Err e, fs1) -> fs1 = fs0).
  { intros path fs0 e fs1. unfold os_Create.
    destruct (create_err fs0 path); intros Heq; inversion Heq; subst.
    reflexivity. }
  assert (Hcopy : forall path rd fs0 x fs1,
            io_Copy path rd fs0 = (x, fs1) ->
            (forall p, p <> path -> files fs1 !! p = files fs0 !! p)
            /\ (is_Err x = false ->
                rd_err rd = None /\ files fs1 !! path = Some (rd_data rd))).
  { intros path rd fs0 x fs1. unfold io_Copy.
    destruct (write_err fs0 path (rd_data rd)) as [[n e]|].
    - intros Heq; inversion Heq; subst. simpl. split.
      + intros p Hp. apply lookup_insert_ne. congruence.
      + discriminate.
    - destruct (rd_err rd) as [e|]; intros Heq; inversion Heq; subst; simpl.
      + split; [|discriminate]. intros p Hp. apply lookup_insert_ne. congruence.
      + split.
        * intros p Hp. apply lookup_insert_ne. congruence.
        * intros _. split; [reflexivity | apply lookup_insert_eq]. }
  split.
  - unfold AwsDownloadFile. go_run.
    all: repeat match goal with
           | Hc : os_Create _ _ = (Ok _, _) |- _ =>
               apply Hcreate in Hc; destruct Hc as [? Hc]; subst
           | Hc : os_Create _ _ = (Err _, _) |- _ =>
               apply Hcreate_err in Hc; subst
           | Hc : io_Copy _ _ _ = _ |- _ =>
               apply Hcopy in Hc; destruct Hc as [? ?]
           end.
    all: split;
      [ intros Hne; simpl;
        rewrite ?lookup_delete_ne by congruence;
        repeat match goal with
               | Hf : forall p, p <> _ -> _ |- _ => rewrite Hf by congruence; clear Hf
               end;
        repeat match goal with
               | Hf : files _ = _ |- _ => rewrite Hf
               end;
        rewrite ?lookup_insert_ne by congruence; reflexivity
      | intros resp Hr Hs; inversion Hr; subst resp; simpl in Hs;
        try discriminate ].
    match goal with
    | Hx : is_Err (Ok _) = false -> _ |- _ => destruct (Hx eq_refl) as [? ?]
    end.
    eexists _, _, _. split; [eassumption|]. split; assumption.
  - unfold GcsDownloadFile. go_run.
    all: repeat match goal with
           | Hc : os_Create _ _ = (Ok _, _) |- _ =>
               apply Hcreate in Hc; destruct Hc as [? Hc]; subst
           | Hc : os_Create _ _ = (Err _, _) |- _ =>
               apply Hcreate_err in Hc; subst
           | Hc : io_Copy _ _ _ = _ |- _ =>
               apply Hcopy in Hc; destruct Hc as [? ?]
           end.
    all: split;
      [ intros Hne; simpl;
        rewrite ?lookup_delete_ne by congruence;
        repeat match goal with
               | Hf : forall p, p <> _ -> _ |- _ => rewrite Hf by congruence; clear Hf
               end;
        repeat match goal with
               | Hf : files _ = _ |- _ => rewrite Hf
               end;
        rewrite ?lookup_insert_ne by congruence; reflexivity
      | intros resp Hr Hs; inversion Hr; subst resp; simpl in Hs;
        try discriminate ].
    match goal with
    | Hx : is_Err (Ok _) = false -> _ |- _ => destruct (Hx eq_refl) as [? ?]
    end.
    eexists _, _, _. split; [eassumption|]. split; assumption.
Qed.


(** ** More on the cache, the requests and the storage keys *)

Lemma missing_at t key c :
  snd (fst (MemoryCache_Get t key c)) = false <->
  match items c !! key with
  | Some it => expired t it = true
  | None => True
  end.
Proof.
  unfold MemoryCache_Get. destruct (items c !! key) as [it|]; [|tauto].
  destruct (expired t it); simpl; split; auto; discriminate.
Qed.

(** X9. A key reported missing stays missing until it is set again: if
    [Get] does not find the key at some instant, then after any history of
    calls without a [Set] of that key (reads, deletes, sweeps, writes of
    other keys, at any instants) neither [Get] nor [Has] finds it at any
    later instant. *)
Theorem missing_until_set (c : MemoryCache) (key : string) (t t' : Z)
    (ops : list (Z * CacheOp)) :
  t <= t' ->
  forallb (fun top : Z * CacheOp => negb (sets key (snd top))) ops = true ->
  snd (fst (MemoryCache_Get t key c)) = false ->
  fst (MemoryCache_Get t' key (run_ops ops c)) = (EmptyString, false)
  /\ fst (MemoryCache_Has t' key (run_ops ops c)) = false.
Proof.
  intros Hle Hops Hmiss.
  assert (Hfinal : snd (fst (MemoryCache_Get t key (run_ops ops c))) = false).
  { revert c Hmiss. induction ops as [|[now op] rest IH]; intros c Hmiss; simpl.
    - exact Hmiss.
    - simpl in Hops. apply andb_prop in Hops. destruct Hops as [Hop Hrest].
      apply IH; [exact Hrest|]. apply negb_true_iff in Hop.
      apply missing_at. apply missing_at in Hmiss.
      destruct op as [k v e|k|k|k|].
      + simpl in Hop. apply bool_decide_eq_false in Hop.
        unfold apply_op, MemoryCache_Set. simpl.
        rewrite lookup_insert_ne by exact Hop. exact Hmiss.
      + unfold apply_op. rewrite Get_keeps_cache. exact Hmiss.
      + unfold apply_op. rewrite Has_keeps_cache. exact Hmiss.
      + unfold apply_op, MemoryCache_Delete. simpl.
        destruct (decide (k = key)) as [->|Hne].
        * rewrite lookup_delete_eq. exact I.
        * rewrite lookup_delete_ne by exact Hne. exact Hmiss.
      + unfold apply_op, janitor_tick. rewrite deleteExpired_lookup.
        destruct (items c !! key) as [it|]; [|exact I].
        destruct (expired now it); [exact I | exact Hmiss]. }
  apply missing_at in Hfinal.
  rewrite Has_is_Get. unfold MemoryCache_Get.
  destruct (items (run_ops ops c) !! key) as [it|]; [|split; reflexivity].
  rewrite (expired_monotone t t' it Hle Hfinal). split; reflexivity.
Qed.

Lemma missing_until_set_witness :
  let c := MemoryCache_Set 1000 "k" "v" 50 NewMemoryCache in
  let ops := [(2000, OpGet "k"); (2100, OpSet "other" "x" 0); (2200, OpSweep);
              (2300, OpDelete "k")] in
  fst (MemoryCache_Get 3000 "k" (run_ops ops c)) = (EmptyString, false)
  /\ fst (MemoryCache_Has 3000 "k" (run_ops ops c)) = false.
Proof.
  apply (missing_until_set (MemoryCache_Set 1000 "k" "v" 50 NewMemoryCache)
           "k" 1500 3000); [lia | reflexivity | reflexivity].
Defined.

Section Requests.
Context {W : Type} `{Platform W} `{TokenManager W}.
Variable f : FileStorageManager.
Variables method url body : string.

End Requests.


(** [filepath.Ext] returns nothing, or a dot followed by bytes without a
    dot. *)
Lemma ext_scan_shape rpath : forall suffix,
  ext_scan rpath suffix = EmptyString
  \/ exists rext,
       ~ In "."%char rext
       /\ ext_scan rpath suffix
          = string_of_list_ascii ("."%char :: rev rext ++ suffix).
Proof.
  induction rpath as [|c more IH]; intros suffix; simpl; [left; reflexivity|].
  destruct (is_sep c); [left; reflexivity|].
  destruct (is_dot c) eqn:Ed.
  - right. exists []. apply is_dot_true in Ed. subst. simpl. auto.
  - apply is_dot_false in Ed.
    destruct (IH (c :: suffix)) as [He|(rext & Hno & He)]; [left; exact He|].
    right. exists (c :: rext). split.
    + intros [Hc|Hin]; [congruence | contradiction].
    + rewrite He. simpl. rewrite <- app_assoc. reflexivity.
Qed.

Lemma extension_has_no_dot name : ~ has_dot (extension_of name).
Proof.
  unfold extension_of, filepath_Ext, has_dot.
  destruct (ext_scan_shape (rev (list_ascii_of_string name)) [])
    as [He|(rext & Hno & He)]; rewrite He; simpl.
  - intros [].
  - rewrite app_nil_r, list_ascii_of_string_of_list_ascii.
    intros Hin. apply Hno. apply in_rev. exact Hin.
Qed.

(** X17. The storage key of an upload keeps the extension and nothing else
    of the name: for an upload that returns a [FileInfo], the key is a
    prefix followed by a dot and the recorded extension, the recorded
    extension is what follows the last dot of the base name and contains no
    dot itself, and the response, its [INSERT] message and the [FileInfo]
    all name that key. *)
Theorem upload_key_keeps_extension {W : Type} `{Platform W}
    (f : FileStorageManager) (file : FileHeader)
    (subdirectory bucketname projectID : string) (w : W) (fs : FileSystem) :
  let keyed (r : Returned) :=
    forall resp info,
      r = (Some resp, None) -> Info resp = Some info ->
      (exists name, FileID info = name +:+ "." +:+ FileExt info)
      /\ ~ has_dot (FileExt info)
      /\ FileExt info = extension_of (filepath_Base (Filename file))
      /\ RespFileID resp = FileID info
      /\ Message resp = "INSERT " +:+ FileID info in
  keyed (fst (AwsUpload f file subdirectory bucketname (fresh w fs)))
  /\ keyed (fst (GcsUpload f file subdirectory bucketname projectID
                   (fresh w fs))).
Proof.
  intros keyed.
  assert (Hkey : forall u ext,
            exists name, make_fileID subdirectory (u +:+ "." +:+ ext)
                         = name +:+ "." +:+ ext).
  { intros u ext. unfold make_fileID. destruct (negb (is_empty subdirectory)).
    - exists (subdirectory +:+ "/" +:+ u).
      rewrite !append_assoc_string. reflexivity.
    - exists u. reflexivity. }
  split; unfold keyed.
  - unfold AwsUpload. go_run.
    all: intros resp info Hr Hi; try discriminate.
    all: inversion Hr; subst resp; simpl in Hi; try discriminate.
    inversion Hi; subst info. simpl.
    split; [apply Hkey|]. split; [apply extension_has_no_dot|].
    repeat split; reflexivity.
  - unfold GcsUpload. go_run.
    all: intros resp info Hr Hi; try discriminate.
    all: inversion Hr; subst resp; simpl in Hi; try discriminate.
    inversion Hi; subst info. simpl.
    split; [apply Hkey|]. split; [apply extension_has_no_dot|].
    repeat split; reflexivity.
Qed.

(** X18. The slice expression that cuts the name out of the base name, in
    [AwsUpload], [GcsUpload] and [Upload], is within bounds for every file
    name, so it never panics; what it cuts out is a prefix of the base name,
    shorter than it by the extension and one byte. *)
Theorem upload_slice_is_a_prefix (path : string) :
  let base := filepath_Base path in
  let extension := extension_of base in
  0 <= len base - len extension - 1 <= len base
  /\ exists rest,
       base = slice_to base (len base - len extension - 1) +:+ rest
       /\ len rest = len extension + 1.
Proof.
  intros base extension. split; [apply upload_slice_in_range|].
  destruct (upload_names path) as [Hno Hdot]. fold base in Hno, Hdot.
  unfold recorded_ext, recorded_name in Hno, Hdot. fold extension in Hno, Hdot.
  destruct (has_dot_dec base) as [Hd|Hd].
  - exists ("." +:+ extension). split.
    + symmetry. apply Hdot. exact Hd.
    + unfold len. rewrite length_append_string. simpl. lia.
  - destruct (Hno Hd) as (He & [c Hc] & _).
    exists (String c EmptyString). split; [exact Hc|].
    rewrite He. reflexivity.
Qed.
